(** * ChatDB: the conversational-memory store of the data-storage notebook

    The notebook defines one class, [ChatDB], a thin wrapper over a ChromaDB
    collection: [__init__], [add_conversation_to_db], [get_all_entries],
    [clear_db] and [query_db].  This file embeds the class method by method
    in a state-and-exception monad and proves the properties of the
    specification about it.

    The class only forwards to two external collaborators, which are not
    part of the repository: the embedding provider (OpenAI, reached through
    [OpenAIEmbeddingFunction]) and the vector index (the [chromadb] client
    and collection objects).  The provider is a parameter of the
    development; the chromadb calls the class makes are modelled in the
    first part of the file, from the interface of section 6 of the
    specification and the documented behaviour of the library:
    [create_collection] raises on a name that is stored already, a call on
    a deleted collection raises, [query] rejects an [n_results] that is not
    positive and returns at most as many hits as there are entries. *)

From Stdlib Require Import QArith Ascii String.
From stdpp Require Import base strings gmap list sorting pretty.

Local Open Scope Z_scope.

(** ** Exceptions

    The error taxonomy of the specification, and the error chromadb raises
    when [create_collection] meets an existing name. *)
Inductive Error : Type :=
  | ConnectionFailure
  | InvalidModel
  | InvalidArgument
  | NotFound
  | AlreadyExists.

Global Instance Error_eq_dec : EqDecision Error.
Proof. solve_decision. Defined.

(** The outcome of a call that may raise. *)
Definition Result (A : Type) : Type := Error + A.

(** Distances are compared as rationals. *)
Global Instance Qle_dec : RelDecision Qle.
Proof. intros x y. unfold Qle. apply _. Defined.

(** Python's [str] on an [int]. *)
Definition str (n : Z) : string := pretty n.

(** The line feed of the f-string. *)
Definition LF : string := String "010"%char EmptyString.

(** ** The environment of the class

    The embedding provider and what the index computes with its vectors:
    the type of vectors, the API key read from the process environment, the
    provider call (API key, model name, text), the distance of the index by
    name of its space, chromadb's check of a collection name, and the
    order in which the backend lists the entries of a collection, which is
    its own: [listed_before i j] says that it puts the id [i] before [j].

    The provider is a function: it answers every call, and the same text
    gets the same vector. Its faults (network, key, quota) and those of the
    disk are outside the model. Distances are rationals, so that they are
    totally ordered. *)
Class Environment : Type := {
  Embedding : Type;
  OPENAI_API_KEY : string;
  embed : string → string → string → Embedding;
  distance : string → Embedding → Embedding → Q;
  valid_collection_name : string → bool;
  listed_before : string → string → bool
}.

Section Store.

Context `{Env : Environment}.

(** *** [OpenAIEmbeddingFunction] *)
Record EmbeddingFunction : Type := OpenAIEmbeddingFunction {
  api_key : string;
  ef_model_name : string
}.

(** Calling an embedding function on a list of texts. *)
Definition ef_call (ef : EmbeddingFunction) (texts : list string)
  : list Embedding :=
  embed (api_key ef) (ef_model_name ef) <$> texts.

(** *** The persistent database

    chromadb is a third-party package and not part of the repository; what
    follows is a model of the calls the class makes, after the backend
    interface of section 6 of the specification (create_collection, add,
    get, query, delete_collection) and the documented behaviour of the
    library.  A stored collection holds its entries as a list, the newest
    last; the order in which [get] lists them is the backend's own. *)
Record Entry : Type := {
  entry_id : string;
  entry_embedding : Embedding;
  entry_document : string;
  entry_metadata : gmap string string
}.

Record Stored : Type := {
  stored_id : N;
  stored_metadata : gmap string string;
  stored_entries : list Entry
}.

Record Database : Type := {
  next_id : N;
  collections : gmap string Stored
}.

(** [chromadb.PersistentClient(path=...)]. *)
Record Client : Type := PersistentClient { path : string }.

(** The Python-side collection object: the name and id it was created
    with, its metadata and its embedding function. *)
Record Collection : Type := {
  coll_name : string;
  coll_id : N;
  coll_metadata : gmap string string;
  coll_ef : EmbeddingFunction
}.

(** The stored collection a collection object still refers to. *)
Definition resolve (h : Collection) (d : Database) : option Stored :=
  match collections d !! coll_name h with
  | Some s => if decide (stored_id s = coll_id h) then Some s else None
  | None => None
  end.

(** chromadb's [Client.create_collection], as the class calls it (without
    [get_or_create]): the name is checked, an existing name is an error,
    otherwise an empty collection is stored under a fresh id. *)
Definition create_collection (c : Client) (name : string)
    (ef : EmbeddingFunction) (metadata : gmap string string)
    (d : Database) : Result (Collection * Database) :=
  if negb (valid_collection_name name) then inl InvalidArgument
  else match collections d !! name with
  | Some _ => inl AlreadyExists
  | None =>
      inr ({| coll_name := name; coll_id := next_id d;
              coll_metadata := metadata; coll_ef := ef |},
           {| next_id := N.succ (next_id d);
              collections :=
                <[name := {| stored_id := next_id d;
                             stored_metadata := metadata;
                             stored_entries := [] |}]> (collections d) |})
  end.

(** chromadb's [Client.delete_collection]: a missing name is an error. *)
Definition delete_collection (c : Client) (name : string) (d : Database)
  : Result (unit * Database) :=
  match collections d !! name with
  | None => inl NotFound
  | Some _ =>
      inr (tt, {| next_id := next_id d;
                  collections := delete name (collections d) |})
  end.

(** One entry per position of the three argument lists. *)
Definition new_entries (ef : EmbeddingFunction)
    (documents : list string) (metadatas : list (gmap string string))
    (ids : list string) : list Entry :=
  zip_with (λ i dm,
              {| entry_id := i;
                 entry_embedding := embed (api_key ef) (ef_model_name ef) dm.1;
                 entry_document := dm.1;
                 entry_metadata := dm.2 |})
           ids (zip documents metadatas).

(** An entry whose id is already stored is not stored again. *)
Definition insert_entry (es : list Entry) (e : Entry) : list Entry :=
  if decide (entry_id e ∈ entry_id <$> es) then es else es ++ [e].

(** The shape chromadb requires of a batch: not empty, as many documents
    and metadatas as ids, no id twice. *)
Definition valid_batch (documents : list string)
    (metadatas : list (gmap string string)) (ids : list string) : bool :=
  bool_decide (ids ≠ [] ∧ length documents = length ids
               ∧ length metadatas = length ids ∧ NoDup ids).

(** chromadb's [Collection.add] (add of section 6): the batch is
    validated, the documents are embedded, and the entries are appended to
    the stored collection; a collection that no longer exists is an
    error. *)
Definition Collection_add (h : Collection) (documents : list string)
    (metadatas : list (gmap string string)) (ids : list string)
    (d : Database) : Result (unit * Database) :=
  if negb (valid_batch documents metadatas ids) then inl InvalidArgument
  else
    let es := new_entries (coll_ef h) documents metadatas ids in
    match resolve h d with
    | None => inl NotFound
    | Some s =>
        inr (tt, {| next_id := next_id d;
                    collections :=
                      <[coll_name h :=
                          {| stored_id := stored_id s;
                             stored_metadata := stored_metadata s;
                             stored_entries :=
                               foldl insert_entry (stored_entries s) es |}]>
                        (collections d) |})
    end.

(** The dictionary [Collection.get] returns. *)
Record GetResult : Type := {
  get_ids : list string;
  get_embeddings : option (list Embedding);
  get_documents : list string;
  get_metadatas : list (gmap string string)
}.

(** The order of a listing is the backend's, by the ids of the entries. *)
Definition lists_before (x y : Entry) : Prop :=
  listed_before (entry_id x) (entry_id y) = true.

Global Instance lists_before_dec : RelDecision lists_before.
Proof. intros x y. unfold lists_before. apply _. Defined.

(** The entries of a collection as the backend lists them. *)
Definition listing (es : list Entry) : list Entry :=
  merge_sort lists_before es.

(** chromadb's [Collection.get] without arguments (get_all of section 6):
    every entry, once, in the order the backend lists them (the interface
    promises none), without the embeddings; the three lists are aligned. *)
Definition Collection_get (h : Collection) (d : Database)
  : Result (GetResult * Database) :=
  match resolve h d with
  | None => inl NotFound
  | Some s =>
      inr ({| get_ids := entry_id <$> listing (stored_entries s);
              get_embeddings := None;
              get_documents := entry_document <$> listing (stored_entries s);
              get_metadatas := entry_metadata <$> listing (stored_entries s) |},
           d)
  end.

(** The turns of a [get] result: each id with the document and the
    metadata at its position. *)
Definition records (r : GetResult)
  : list (string * (string * gmap string string)) :=
  zip (get_ids r) (zip (get_documents r) (get_metadatas r)).

(** The dictionary [Collection.query] returns: one inner list per query
    text. *)
Record QueryResult : Type := {
  ids : list (list string);
  distances : list (list Q);
  metadatas : list (list (gmap string string));
  embeddings : option (list (list Embedding));
  documents : list (list string)
}.

(** The distance space of a stored collection ("l2" when not set). *)
Definition space_of (s : Stored) : string :=
  default "l2" (stored_metadata s !! "hnsw:space").

(** Ordering of scored entries by distance. *)
Definition closer (x y : Q * Entry) : Prop := (x.1 <= y.1)%Q.

Global Instance closer_dec : RelDecision closer.
Proof. intros x y. unfold closer. apply _. Defined.

(** The [k] entries nearest to the query vector, closest first. The search
    of the index is taken as exact. *)
Definition nearest (space : string) (q : Embedding) (k : nat)
    (es : list Entry) : list (Q * Entry) :=
  take k (merge_sort closer
            ((λ e, (distance space q (entry_embedding e), e)) <$> es)).

(** chromadb's [Collection.query] (query of section 6): [n_results] is
    validated first (the library rejects zero and negative values), the
    query texts are embedded, and for each of them the
    min(n_results, count) nearest entries are returned, closest first. *)
Definition Collection_query (h : Collection) (query_texts : list string)
    (n_results : Z) (d : Database) : Result (QueryResult * Database) :=
  if decide (n_results ≤ 0) then inl InvalidArgument
  else
    let qs := ef_call (coll_ef h) query_texts in
    match resolve h d with
    | None => inl NotFound
    | Some s =>
        let k := Z.to_nat (Z.min n_results
                             (Z.of_nat (length (stored_entries s)))) in
        let hits :=
          (λ q, nearest (space_of s) q k (stored_entries s)) <$> qs in
        inr ({| ids := fmap (λ x, entry_id x.2) <$> hits;
                distances := fmap fst <$> hits;
                metadatas := fmap (λ x, entry_metadata x.2) <$> hits;
                embeddings := None;
                documents := fmap (λ x, entry_document x.2) <$> hits |}, d)
    end.

(** ** The class [ChatDB] *)

(** The attributes of an instance. *)
Record ChatDB : Type := {
  model_name : string;
  client : Client;
  embedding_function : EmbeddingFunction;
  chat_db : Collection;
  id_counter : Z
}.

(** What a method call acts on: the instance and the database on disk. *)
Record State : Type := { self : ChatDB; db : Database }.

(** Methods run in a state monad with exceptions; when a call raises, the
    state is the one reached at the raise. *)
Definition M (A : Type) : Type := State → Result A * State.

Global Instance M_ret : MRet M := λ A a st, (inr a, st).
Global Instance M_bind : MBind M := λ A B f m st,
  match m st with
  | (inl e, st') => (inl e, st')
  | (inr a, st') => f a st'
  end.

(** Reading an attribute of [self]. *)
Definition attr {A} (f : ChatDB → A) : M A := λ st, (inr (f (self st)), st).

(** Assigning to an attribute of [self]. *)
Definition assign (f : ChatDB → ChatDB) : M unit :=
  λ st, (inr tt, {| self := f (self st); db := db st |}).

(** A call into chromadb. *)
Definition call {A} (op : Database → Result (A * Database)) : M A :=
  λ st, match op (db st) with
        | inl e => (inl e, st)
        | inr (a, d) => (inr a, {| self := self st; db := d |})
        end.

Definition set_model_name (v : string) (o : ChatDB) : ChatDB :=
  {| model_name := v; client := client o;
     embedding_function := embedding_function o;
     chat_db := chat_db o; id_counter := id_counter o |}.
Definition set_client (v : Client) (o : ChatDB) : ChatDB :=
  {| model_name := model_name o; client := v;
     embedding_function := embedding_function o;
     chat_db := chat_db o; id_counter := id_counter o |}.
Definition set_embedding_function (v : EmbeddingFunction) (o : ChatDB)
  : ChatDB :=
  {| model_name := model_name o; client := client o;
     embedding_function := v;
     chat_db := chat_db o; id_counter := id_counter o |}.
Definition set_chat_db (v : Collection) (o : ChatDB) : ChatDB :=
  {| model_name := model_name o; client := client o;
     embedding_function := embedding_function o;
     chat_db := v; id_counter := id_counter o |}.
Definition set_id_counter (v : Z) (o : ChatDB) : ChatDB :=
  {| model_name := model_name o; client := client o;
     embedding_function := embedding_function o;
     chat_db := chat_db o; id_counter := v |}.

(** The default values of the optional arguments: [model_name] of
    [__init__], [reinitialize] of [clear_db], [n_results] of [query_db]. *)
Definition default_model_name : string := "text-embedding-3-small".
Definition default_reinitialize : bool := true.
Definition default_n_results : Z := 2.

(** [ChatDB.__init__] *)
Definition __init__ (name model_name' : string) : M unit :=
  assign (set_model_name model_name') ;;
  assign (set_client (PersistentClient "./")) ;;
  assign (set_embedding_function
            (OpenAIEmbeddingFunction OPENAI_API_KEY model_name')) ;;
  c ← attr client;
  ef ← attr embedding_function;
  h ← call (create_collection c name ef {["hnsw:space" := "cosine"]});
  assign (set_chat_db h) ;;
  assign (set_id_counter 0).

(** The f-string [f"User: {user_message}\nAI: {ai_message}"]. *)
Definition conversation_document (user_message ai_message : string)
  : string :=
  "User: " +:+ user_message +:+ LF +:+ "AI: " +:+ ai_message.

(** The dictionary [{"user_message": ..., "ai_message": ...}]. *)
Definition conversation_metadata (user_message ai_message : string)
  : gmap string string :=
  {[ "user_message" := user_message; "ai_message" := ai_message ]}.

(** [ChatDB.add_conversation_to_db] *)
Definition add_conversation_to_db (user_message ai_message : string)
  : M unit :=
  h ← attr chat_db;
  n ← attr id_counter;
  call (Collection_add h
          [conversation_document user_message ai_message]
          [conversation_metadata user_message ai_message]
          [str n]) ;;
  n' ← attr id_counter;
  assign (set_id_counter (n' + 1)).

(** [ChatDB.get_all_entries] *)
Definition get_all_entries : M GetResult :=
  h ← attr chat_db;
  call (Collection_get h).

(** [ChatDB.clear_db] *)
Definition clear_db (reinitialize : bool) : M unit :=
  c ← attr client;
  h ← attr chat_db;
  call (delete_collection c (coll_name h)) ;;
  if reinitialize then
    h' ← attr chat_db;
    m ← attr model_name;
    __init__ (coll_name h') m
  else mret tt.

(** [ChatDB.query_db] *)
Definition query_db (query_text : string) (n_results : Z)
  : M QueryResult :=
  h ← attr chat_db;
  call (Collection_query h [query_text] n_results).

(** ** Construction and sequences of calls *)

(** An instance before [__init__] has bound its attributes; every
    attribute is assigned before the constructor returns. *)
Definition unbound : ChatDB :=
  {| model_name := EmptyString;
     client := PersistentClient EmptyString;
     embedding_function := OpenAIEmbeddingFunction EmptyString EmptyString;
     chat_db :=
       {| coll_name := EmptyString; coll_id := 0%N; coll_metadata := ∅;
          coll_ef := OpenAIEmbeddingFunction EmptyString EmptyString |};
     id_counter := 0 |}.

(** The constructor call [ChatDB(name, model_name)]: the new instance is
    returned when [__init__] returns, and nothing is when it raises. *)
Definition new_ChatDB (name model_name' : string) (d : Database)
  : Result (ChatDB * Database) :=
  match __init__ name model_name' {| self := unbound; db := d |} with
  | (inl e, _) => inl e
  | (inr _, st) => inr (self st, db st)
  end.

(** One [add_conversation_to_db] call per turn, in order. *)
Fixpoint add_all (turns : list (string * string)) : M unit :=
  match turns with
  | [] => mret tt
  | t :: turns' => add_conversation_to_db t.1 t.2 ;; add_all turns'
  end.

(** The entry [add_conversation_to_db] hands to the collection for a turn
    when the counter is [n]. *)
Definition turn_entry (ef : EmbeddingFunction) (n : Z) (t : string * string)
  : Entry :=
  {| entry_id := str n;
     entry_embedding :=
       embed (api_key ef) (ef_model_name ef) (conversation_document t.1 t.2);
     entry_document := conversation_document t.1 t.2;
     entry_metadata := conversation_metadata t.1 t.2 |}.

(** The ids handed out while the counter went from 0 to [n]. *)
Definition issued (n : Z) : list string :=
  (λ i : nat, str (Z.of_nat i)) <$> seq 0 (Z.to_nat n).

(** ** Live and destroyed stores *)

(** A live store: the collection object of the instance refers to a stored
    collection [s], created by [__init__] under a name chromadb accepts,
    with the cosine space and the embedding function of the instance, and
    the ids stored are the ones the counter has handed out. *)
Record store_inv (st : State) (s : Stored) : Prop := {
  inv_attached : resolve (chat_db (self st)) (db st) = Some s;
  inv_name : valid_collection_name (coll_name (chat_db (self st))) = true;
  inv_space : space_of s = "cosine";
  inv_ef : coll_ef (chat_db (self st))
           = OpenAIEmbeddingFunction OPENAI_API_KEY (model_name (self st));
  inv_counter : 0 ≤ id_counter (self st);
  inv_ids : entry_id <$> stored_entries s = issued (id_counter (self st))
}.

Definition live (st : State) : Prop := ∃ s, store_inv st s.

(** A destroyed store: the collection of the instance is gone. *)
Definition destroyed (st : State) : Prop :=
  collections (db st) !! coll_name (chat_db (self st)) = None.

(** The database after an entry went into the collection of [h]. *)
Definition with_entry (h : Collection) (s : Stored) (e : Entry)
    (d : Database) : Database :=
  {| next_id := next_id d;
     collections :=
       <[coll_name h :=
           {| stored_id := stored_id s;
              stored_metadata := stored_metadata s;
              stored_entries := insert_entry (stored_entries s) e |}]>
         (collections d) |}.

(** The instance and the database [__init__] leaves when the name is
    accepted and free. *)
Definition initialised (name model_name' : string) (d : Database) : State :=
  {| self :=
       {| model_name := model_name';
          client := PersistentClient "./";
          embedding_function :=
            OpenAIEmbeddingFunction OPENAI_API_KEY model_name';
          chat_db :=
            {| coll_name := name; coll_id := next_id d;
               coll_metadata := {["hnsw:space" := "cosine"]};
               coll_ef :=
                 OpenAIEmbeddingFunction OPENAI_API_KEY model_name' |};
          id_counter := 0 |};
     db :=
       {| next_id := N.succ (next_id d);
          collections :=
            <[name := {| stored_id := next_id d;
                         stored_metadata := {["hnsw:space" := "cosine"]};
                         stored_entries := [] |}]> (collections d) |} |}.

End Store.

(** ** A stub environment

    A deterministic embedding provider for the concrete scenarios: a text is
    its own vector, two vectors are as far apart as their lengths differ,
    a collection name needs three characters, and entries are listed by id
    in the order of strings. *)
Definition stub : Environment :=
  {| Embedding := string;
     OPENAI_API_KEY := "sk-test";
     embed := λ _ _ text, text;
     distance := λ _ a b,
       inject_Z (Z.abs (Z.of_nat (String.length a)
                        - Z.of_nat (String.length b)));
     valid_collection_name :=
       λ name, bool_decide (3 ≤ String.length name)%nat;
     listed_before := String.leb |}.

(** A database directory without collections. *)
Definition empty_db : @Database stub := {| next_id := 0; collections := ∅ |}.

(** The state an instance and the database are in after a run that did not
    raise. *)
Definition state_after (r : Result (ChatDB * @Database stub))
  : @State stub :=
  match r with
  | inr (o, d) => {| self := o; db := d |}
  | inl _ => {| self := unbound; db := empty_db |}
  end.

(** [chat_db = ChatDB("chat_db", "text-embedding-3-small")] in an empty
    directory. *)
Definition fresh_store : @State stub :=
  state_after (new_ChatDB "chat_db" default_model_name empty_db).

(** The three turns of the notebook's scenario. *)
Definition three_turns : list (string * string) :=
  [("Hi, I'm Alice", "Hello Alice");
   ("Need a restaurant", "What cuisine?");
   ("Italian food", "What budget?")].

(** The store after one turn and after the three turns. *)
Definition one_turn_store : @State stub :=
  (add_conversation_to_db "Hi, I'm Alice" "Hello Alice" fresh_store).2.
Definition three_turn_store : @State stub :=
  (add_all three_turns fresh_store).2.

(** The store after [clear_db(reinitialize=False)]. *)
Definition destroyed_store : @State stub :=
  (clear_db false three_turn_store).2.

(** The stored collection behind a state of the stub scenarios. *)
Definition stored_of (st : @State stub) : @Stored stub :=
  default {| stored_id := 0; stored_metadata := ∅; stored_entries := [] |}
          (resolve (chat_db (self st)) (db st)).

(** * The functions around the class

    Besides the class the notebook defines [combined_context],
    [get_context], [load_template] and [chat_with_db].  They work on module
    level names: the instance [chat_db], by which [get_context] and
    [chat_with_db] default their [chat_db] argument, the rendered
    [system_prompt], and the OpenAI [client]. *)

(** ** Formatting *)

(** The nearest integer of a rational, ties to the even one. *)
Definition round_half_even (x : Q) : Z :=
  let n := Qnum x in
  let d := Z.pos (Qden x) in
  match 2 * (n `mod` d) ?= d with
  | Lt => n `div` d
  | Gt => n `div` d + 1
  | Eq => if Z.even (n `div` d) then n `div` d else n `div` d + 1
  end.

(** The format specification [.2f] of an f-string, on the exact value of
    the float: sign, integer part, point, hundredths rounded to nearest
    with ties to even. *)
Definition format_2f (x : Q) : string :=
  let h := round_half_even (Z.abs (Qnum x) * 100 # Qden x) in
  (if decide (Qnum x < 0) then "-" else EmptyString)
  +:+ pretty (h `div` 100) +:+ "."
  +:+ pretty ((h `div` 10) `mod` 10) +:+ pretty (h `mod` 10).

(** Python's repetition of a string, [s * n]. *)
Fixpoint str_mul (s : string) (n : nat) : string :=
  match n with
  | O => EmptyString
  | S n' => s +:+ str_mul s n'
  end.

(** What one turn of the loop of [combined_context] appends:
    [f"{document}\nCosine distance: {score:.2f}\n{'-'*10}\n"]. *)
Definition context_block (document : string) (score : Q) : string :=
  document +:+ LF +:+ "Cosine distance: " +:+ format_2f score +:+ LF
  +:+ str_mul "-" 10 +:+ LF.

(** [combined_context]: the loop over [zip(documents, scores)]. *)
Definition combined_context (documents : list string) (scores : list Q)
  : string :=
  foldl (λ string ds, string +:+ context_block ds.1 ds.2)
        EmptyString (zip documents scores).

(** ** The services the functions call

    The template renderer (jinja2, on the template files of the working
    directory) and the chat completion of the OpenAI client, which answers
    the list of messages with the content of its first choice.  Both are
    functions here; their faults are outside the model. *)
Record Message : Type := { role : string; content : string }.

Class Services : Type := {
  render : string → gmap string string → string;
  chat_completions_create : string → list Message → string
}.

(** What a function of the notebook can raise: an error of the class, or
    the IndexError of a subscript. *)
Inductive Exception : Type :=
  | Raised (e : Error)
  | IndexError.

Section Session.

Context `{Env : Environment} `{Svc : Services}.

(** The two [ChatDB] objects a call can see: the one bound to the module
    level name [chat_db], and one more that a caller may pass instead. *)
Inductive Ref : Type := the_global | the_other.

(** The objects and the database directory they share. *)
Record Session : Type := {
  global_chat_db : ChatDB;
  other_chat_db : ChatDB;
  disk : Database
}.

Definition deref (r : Ref) (w : Session) : ChatDB :=
  match r with
  | the_global => global_chat_db w
  | the_other => other_chat_db w
  end.

Definition update (r : Ref) (o : ChatDB) (d : Database) (w : Session)
  : Session :=
  match r with
  | the_global =>
      {| global_chat_db := o; other_chat_db := other_chat_db w; disk := d |}
  | the_other =>
      {| global_chat_db := global_chat_db w; other_chat_db := o; disk := d |}
  end.

(** The view a method of the object [r] has of the session. *)
Definition view (r : Ref) (w : Session) : State :=
  {| self := deref r w; db := disk w |}.

(** Functions run in a state monad with exceptions over the session. *)
Definition S (A : Type) : Type := Session → (Exception + A) * Session.

Global Instance S_ret : MRet S := λ A a w, (inr a, w).
Global Instance S_bind : MBind S := λ A B f m w,
  match m w with
  | (inl e, w') => (inl e, w')
  | (inr a, w') => f a w'
  end.

(** A method call on the object [r]. *)
Definition method {A} (r : Ref) (m : M A) : S A :=
  λ w, let res := m (view r w) in
       (match res.1 with
        | inl e => inl (Raised e)
        | inr a => inr a
        end, update r (self res.2) (db res.2) w).

(** The subscript [l[i]] of a list. *)
Definition subscript {A} (l : list A) (i : nat) : S A :=
  λ w, match l !! i with
       | Some x => (inr x, w)
       | None => (inl IndexError, w)
       end.

(** [get_context]; the call of [query_db] passes the literal 2, not the
    argument [n_results]. *)
Definition get_context (user_input : string) (n_results : Z) (chat_db : Ref)
  : S string :=
  results ← method chat_db (query_db user_input 2);
  docs ← subscript (documents results) 0;
  dists ← subscript (distances results) 0;
  let context := combined_context docs dists in
  mret (if decide (context = EmptyString)
        then "No relevant chat history found." else context).

(** What [get_context] returns for a query vector on a stored collection:
    the blocks of the two nearest turns, or the fixed sentence when there
    is none. *)
Definition context_of (q : Embedding) (s : Stored) : string :=
  let hits :=
    nearest (space_of s) q
      (Z.to_nat (2 `min` Z.of_nat (length (stored_entries s))))
      (stored_entries s) in
  let context :=
    combined_context ((λ x, entry_document x.2) <$> hits) (fst <$> hits) in
  if decide (context = EmptyString)
  then "No relevant chat history found." else context.

(** [load_template] *)
Definition load_template (template_filepath : string)
    (arguments : gmap string string) : string :=
  render template_filepath arguments.

(** The module level [system_prompt], the default of [chat_with_db]. *)
Definition system_prompt : string :=
  load_template "prompts/datastore_system_prompt.jinja" ∅.

(** [chat_with_db]; the call of [get_context] passes no [chat_db], so the
    context is read from the default, the module level instance. *)
Definition chat_with_db (user_input : string) (chat_db : Ref)
    (system_prompt' : string) : S (string * string) :=
  context ← get_context user_input default_n_results the_global;
  let user_prompt :=
    load_template "prompts/datastore_user_prompt.jinja"
      {[ "input_message" := user_input;
         "relevant_chat_history" := context ]} in
  let response :=
    chat_completions_create "gpt-4o-mini"
      [ {| role := "system"; content := system_prompt' |};
        {| role := "user"; content := user_prompt |} ] in
  method chat_db (add_conversation_to_db user_input response) ;;
  mret (context, response).

(** One [chat_with_db] call per input, with the default arguments; the
    pairs returned are collected. *)
Fixpoint chat_all (inputs : list string) : S (list (string * string)) :=
  match inputs with
  | [] => mret []
  | user_input :: inputs' =>
      r ← chat_with_db user_input the_global system_prompt;
      rs ← chat_all inputs';
      mret (r :: rs)
  end.

End Session.

(** ** Stub services

    The two templates as the notebook shows them, and a completion that
    answers with a fixed prefix and the length of the user prompt. *)
Definition stub_services : Services :=
  {| render := λ template_filepath arguments,
       if decide (template_filepath = "prompts/datastore_user_prompt.jinja")
       then "### Relevant chat history" +:+ LF +:+ LF
            +:+ default EmptyString (arguments !! "relevant_chat_history")
            +:+ LF +:+ LF +:+ "### User input" +:+ LF +:+ LF
            +:+ default EmptyString (arguments !! "input_message")
       else "You are a sarcastic assistant that loves to roast the user.";
     chat_completions_create := λ model messages,
       "Reply to "
       +:+ pretty (String.length
                     (default EmptyString
                        (content <$> last messages))) +:+ " characters" |}.

(** The session of the notebook once the store is constructed; the other
    object is a store of another name in the same directory. *)
Definition second_store : @State stub :=
  state_after (new_ChatDB "notes_db" default_model_name (db fresh_store)).

Definition fresh_session : @Session stub :=
  {| global_chat_db := self fresh_store;
     other_chat_db := self second_store;
     disk := db second_store |}.

(** The session after the three turns went into the default store, and
    after the default store was then destroyed. *)
Definition turns_session : @Session stub :=
  (method the_global (add_all three_turns) fresh_session).2.

Definition destroyed_session : @Session stub :=
  (method the_global (clear_db false) turns_session).2.

(** What the scenario's query for three results returns. *)
Definition food_results : @QueryResult stub :=
  match (query_db "Food" 3 three_turn_store).1 with
  | inr r => r
  | inl _ => {| ids := []; distances := []; metadatas := [];
                embeddings := None; documents := [] |}
  end.

(** * Properties *)

Section Properties.

Context `{Env : Environment}.

Implicit Types (st : State) (s : Stored) (h : Collection) (d : Database).

(** Unfolding of the monad and of the methods. *)
Ltac run :=
  unfold add_conversation_to_db, get_all_entries, query_db, clear_db, __init__,
    mbind, M_bind, mret, M_ret, attr, assign, call; simpl.

(** *** The backend calls *)

Lemma resolve_Some h d s :
  resolve h d = Some s ↔
  collections d !! coll_name h = Some s ∧ stored_id s = coll_id h.
Proof.
  unfold resolve. destruct (collections d !! coll_name h) as [s'|].
  - case_decide as Hid; split.
    + by intros [= ->].
    + by intros [[= ->] _].
    + done.
    + intros [[= ->] ?]. by destruct Hid.
  - split; [done|]. by intros [? _].
Qed.

Lemma resolve_missing h d :
  collections d !! coll_name h = None → resolve h d = None.
Proof. unfold resolve. by intros ->. Qed.

Lemma valid_batch_one doc (m : gmap string string) (i : string) :
  valid_batch [doc] [m] [i] = true.
Proof.
  unfold valid_batch. apply bool_decide_eq_true.
  repeat split; [done|]. apply NoDup_singleton.
Qed.

(** *** Ids *)

Example str_decimal : str 0 = "0" ∧ str 7 = "7" ∧ str 12 = "12".
Proof. by vm_compute. Qed.

Lemma issued_succ n : 0 ≤ n → issued (n + 1) = issued n ++ [str n].
Proof.
  intros Hn. unfold issued.
  replace (Z.to_nat (n + 1)) with (Z.to_nat n + 1)%nat by lia.
  rewrite seq_app, fmap_app. simpl. by rewrite Z2Nat.id.
Qed.

Lemma issued_of_nat (k : nat) :
  issued (Z.of_nat k) = (λ i : nat, str (Z.of_nat i)) <$> seq 0 k.
Proof. unfold issued. by rewrite Nat2Z.id. Qed.

Lemma str_inj m n : str m = str n → m = n.
Proof. unfold str. apply (inj pretty). Qed.

Lemma str_not_issued n : 0 ≤ n → str n ∉ issued n.
Proof.
  intros Hn. unfold issued. intros (i & Heq & Hi)%list_elem_of_fmap.
  apply str_inj in Heq. apply elem_of_seq in Hi. lia.
Qed.

Lemma issued_NoDup n : NoDup (issued n).
Proof.
  unfold issued. apply NoDup_fmap_2; [|apply NoDup_seq].
  intros i j Hij. apply str_inj in Hij. lia.
Qed.

(** *** One call of [add_conversation_to_db] *)

Lemma add_attached user_message ai_message st s :
  resolve (chat_db (self st)) (db st) = Some s →
  add_conversation_to_db user_message ai_message st =
    (inr tt,
     {| self := set_id_counter (id_counter (self st) + 1) (self st);
        db := with_entry (chat_db (self st)) s
                (turn_entry (coll_ef (chat_db (self st)))
                            (id_counter (self st))
                            (user_message, ai_message))
                (db st) |}).
Proof.
  intros Hs. run. unfold Collection_add.
  rewrite valid_batch_one. simpl. by rewrite Hs.
Qed.

Lemma add_detached user_message ai_message st :
  resolve (chat_db (self st)) (db st) = None →
  add_conversation_to_db user_message ai_message st = (inl NotFound, st).
Proof.
  intros Hs. run. unfold Collection_add.
  rewrite valid_batch_one. simpl. by rewrite Hs.
Qed.

Lemma resolve_with_entry h s e d :
  stored_id s = coll_id h →
  resolve h (with_entry h s e d) =
    Some {| stored_id := stored_id s;
            stored_metadata := stored_metadata s;
            stored_entries := insert_entry (stored_entries s) e |}.
Proof.
  intros Hid. apply resolve_Some. simpl. by rewrite lookup_insert_eq.
Qed.

Lemma insert_entry_fresh (es : list Entry) (e : Entry) :
  entry_id e ∉ entry_id <$> es → insert_entry es e = es ++ [e].
Proof. intros Hne. unfold insert_entry. by rewrite decide_False. Qed.

(** A live store stays live under [add_conversation_to_db], and the entry
    of the turn is appended under the id of the counter. *)
Lemma add_live user_message ai_message st s :
  store_inv st s →
  ∃ st' s',
    add_conversation_to_db user_message ai_message st = (inr tt, st')
    ∧ store_inv st' s'
    ∧ stored_entries s' =
        stored_entries s
        ++ [turn_entry
              (OpenAIEmbeddingFunction OPENAI_API_KEY (model_name (self st)))
              (id_counter (self st)) (user_message, ai_message)]
    ∧ self st' = set_id_counter (id_counter (self st) + 1) (self st).
Proof.
  intros [Hres Hname Hspace Hef Hn Hids].
  pose proof Hres as [Hlook Hid]%resolve_Some.
  eexists _, _. split; [by apply add_attached|].
  rewrite Hef.
  set (e := turn_entry _ _ _).
  assert (Hfresh : entry_id e ∉ entry_id <$> stored_entries s).
  { rewrite Hids. by apply str_not_issued. }
  split; [|split]; [| |done].
  - constructor; simpl.
    + rewrite resolve_with_entry by done. reflexivity.
    + done.
    + done.
    + done.
    + lia.
    + rewrite insert_entry_fresh by done. cbn [stored_entries].
      rewrite fmap_app, Hids. by rewrite issued_succ.
  - simpl. by rewrite insert_entry_fresh.
Qed.

(** *** Sequences of [add_conversation_to_db] calls *)

Lemma listing_Permutation (es : list Entry) : listing es ≡ₚ es.
Proof. apply merge_sort_Permutation. Qed.

Lemma listing_nil : listing [] = [].
Proof. done. Qed.

Lemma listing_singleton (e : Entry) : listing [e] = [e].
Proof. done. Qed.

Lemma get_all_attached st s :
  resolve (chat_db (self st)) (db st) = Some s →
  get_all_entries st =
    (inr {| get_ids := entry_id <$> listing (stored_entries s);
            get_embeddings := None;
            get_documents := entry_document <$> listing (stored_entries s);
            get_metadatas := entry_metadata <$> listing (stored_entries s) |},
     st).
Proof. intros Hs. run. unfold Collection_get. rewrite Hs. by destruct st. Qed.

(** *** Destroyed stores *)

Lemma get_all_detached st :
  resolve (chat_db (self st)) (db st) = None →
  get_all_entries st = (inl NotFound, st).
Proof. intros Hs. run. unfold Collection_get. by rewrite Hs. Qed.

Lemma query_detached query_text n_results st :
  resolve (chat_db (self st)) (db st) = None →
  query_db query_text n_results st =
    (inl (if decide (n_results ≤ 0) then InvalidArgument else NotFound), st).
Proof.
  intros Hs. run. unfold Collection_query.
  case_decide; [done|]. by rewrite Hs.
Qed.

Lemma clear_destroyed reinitialize st :
  destroyed st → clear_db reinitialize st = (inl NotFound, st).
Proof. intros Hs. run. unfold delete_collection. by rewrite Hs. Qed.

(** *** Construction *)

Lemma init_free name model_name' o d :
  valid_collection_name name = true →
  collections d !! name = None →
  __init__ name model_name' {| self := o; db := d |} =
    (inr tt, initialised name model_name' d).
Proof.
  intros Hname Hfree. run. unfold create_collection.
  rewrite Hname. simpl. by rewrite Hfree.
Qed.

Lemma initialised_inv name model_name' d :
  valid_collection_name name = true →
  store_inv (initialised name model_name' d)
            {| stored_id := next_id d;
               stored_metadata := {["hnsw:space" := "cosine"]};
               stored_entries := [] |}.
Proof.
  intros Hname. constructor; simpl; try done.
  apply resolve_Some. simpl. by rewrite lookup_insert_eq.
Qed.

(** *** Nearest neighbours *)

Global Instance closer_total : Total closer.
Proof.
  intros x y. unfold closer.
  destruct (Qlt_le_dec x.1 y.1) as [Hlt|Hle]; [left|right]; [|done].
  by apply Qlt_le_weak.
Qed.

Global Instance closer_trans : Transitive closer.
Proof. intros x y z. unfold closer. apply Qle_trans. Qed.

(** The hits of [nearest] are [min k (length es)] of the entries, in
    ascending order of distance, and no entry left out is closer than a
    hit. *)
Lemma nearest_spec space (q : Embedding) k (es : list Entry) :
  ∃ hits rest : list Entry,
    nearest space q k es =
      (λ e, (distance space q (entry_embedding e), e)) <$> hits
    ∧ hits ++ rest ≡ₚ es
    ∧ length hits = (k `min` length es)%nat
    ∧ Sorted Qle ((λ e, distance space q (entry_embedding e)) <$> hits)
    ∧ ∀ x y, x ∈ hits → y ∈ rest →
        (distance space q (entry_embedding x)
         <= distance space q (entry_embedding y))%Q.
Proof.
  unfold nearest.
  set (dist := λ e, distance space q (entry_embedding e)).
  set (tag := λ e : Entry, (dist e, e)).
  set (sorted := merge_sort closer (tag <$> es)).
  assert (Hperm : sorted ≡ₚ tag <$> es) by apply merge_sort_Permutation.
  assert (Htag : sorted = tag <$> (snd <$> sorted)).
  { rewrite <- list_fmap_compose. rewrite <- (list_fmap_id sorted) at 1.
    apply list_fmap_ext. intros i x Hx%list_elem_of_lookup_2.
    rewrite Hperm in Hx.
    apply list_elem_of_fmap in Hx as (e & -> & _). done. }
  assert (Hes : snd <$> sorted ≡ₚ es).
  { rewrite Hperm. replace (snd <$> (tag <$> es)) with es; [done|].
    rewrite <- list_fmap_compose. rewrite <- (list_fmap_id es) at 1.
    by apply list_fmap_ext. }
  assert (Hsorted : StronglySorted Qle (dist <$> (snd <$> sorted))).
  { replace (dist <$> (snd <$> sorted)) with (fst <$> sorted).
    - apply (StronglySorted_fmap fst closer Qle); [done|].
      apply StronglySorted_merge_sort; apply _.
    - rewrite Htag at 1. rewrite <- !list_fmap_compose. done. }
  set (l := snd <$> sorted) in *.
  exists (take k l), (drop k l).
  rewrite <- (take_drop k l), fmap_app in Hsorted.
  split_and!.
  - change (take k sorted = tag <$> take k l).
    rewrite Htag. by rewrite fmap_take.
  - by rewrite take_drop.
  - rewrite length_take. by rewrite Hes.
  - by apply StronglySorted_app_1_l, StronglySorted_Sorted in Hsorted.
  - intros x y Hx Hy.
    apply (StronglySorted_app_1_elem_of _ _ _ (dist x) (dist y) Hsorted);
      by apply list_elem_of_fmap_2.
Qed.

Lemma query_attached query_text n_results st s :
  resolve (chat_db (self st)) (db st) = Some s →
  1 ≤ n_results →
  query_db query_text n_results st =
    (let ef := coll_ef (chat_db (self st)) in
     let q := embed (api_key ef) (ef_model_name ef) query_text in
     let k :=
       Z.to_nat (n_results `min` Z.of_nat (length (stored_entries s))) in
     let hits := nearest (space_of s) q k (stored_entries s) in
     inr {| ids := [(λ x, entry_id x.2) <$> hits];
            distances := [fst <$> hits];
            metadatas := [(λ x, entry_metadata x.2) <$> hits];
            embeddings := None;
            documents := [(λ x, entry_document x.2) <$> hits] |}, st).
Proof.
  intros Hs Hn. run. unfold Collection_query.
  rewrite decide_False by lia. rewrite Hs. simpl. by destruct st.
Qed.

(** ** The claims of the specification *)

(** C1: on a live store, [add_conversation_to_db] returns normally; it has
    built the document "User: {user_message}\nAI: {ai_message}", the
    collection holds one more entry, made of that document, the metadata
    {user_message, ai_message} and the id [str] of the counter before the
    call, and the counter is one more than before. *)
Theorem add_conversation_to_db_persists
    (user_message ai_message : string) st s :
  store_inv st s →
  ∃ st' s',
    add_conversation_to_db user_message ai_message st = (inr tt, st')
    ∧ resolve (chat_db (self st')) (db st') = Some s'
    ∧ stored_entries s' =
        stored_entries s
        ++ [{| entry_id := str (id_counter (self st));
               entry_embedding :=
                 embed OPENAI_API_KEY (model_name (self st))
                       ("User: " +:+ user_message +:+ LF
                        +:+ "AI: " +:+ ai_message);
               entry_document :=
                 "User: " +:+ user_message +:+ LF +:+ "AI: " +:+ ai_message;
               entry_metadata :=
                 {[ "user_message" := user_message;
                    "ai_message" := ai_message ]} |}]
    ∧ id_counter (self st') = id_counter (self st) + 1
    ∧ chat_db (self st') = chat_db (self st)
    ∧ live st'.
Proof.
  intros Hinv.
  destruct (add_live user_message ai_message st s Hinv)
    as (st' & s' & Hadd & Hinv' & Hes & Hself).
  exists st', s'. split_and!; try done.
  - apply Hinv'.
  - by rewrite Hself.
  - by rewrite Hself.
  - by exists s'.
Qed.

(** C3: when the write of [add_conversation_to_db] into the collection
    raises, the method raises the same error, and neither the instance (its
    counter included) nor the database has changed. *)
Theorem add_conversation_to_db_failure
    (user_message ai_message : string) st (e : Error) :
  Collection_add (chat_db (self st))
    [conversation_document user_message ai_message]
    [conversation_metadata user_message ai_message]
    [str (id_counter (self st))] (db st) = inl e →
  add_conversation_to_db user_message ai_message st = (inl e, st).
Proof. intros Hfail. run. by rewrite Hfail. Qed.

(** C9: [add_conversation_to_db] validates nothing itself. For all message
    strings, the empty one and those with the marker text included: the
    call returns normally whenever the collection of the instance exists,
    on a live store the composite document is embedded and persisted, and
    when the call raises, the error is the backend's NotFound for a
    collection that is gone, never InvalidArgument. *)
Theorem add_conversation_to_db_no_validation
    (user_message ai_message : string) st :
  (is_Some (resolve (chat_db (self st)) (db st)) →
   ∃ st', add_conversation_to_db user_message ai_message st = (inr tt, st'))
  ∧ (∀ s, store_inv st s →
       ∃ st' s',
         add_conversation_to_db user_message ai_message st = (inr tt, st')
         ∧ resolve (chat_db (self st')) (db st') = Some s'
         ∧ entry_document <$> stored_entries s' =
             (entry_document <$> stored_entries s)
             ++ ["User: " +:+ user_message +:+ LF +:+ "AI: " +:+ ai_message])
  ∧ (∀ e st',
       add_conversation_to_db user_message ai_message st = (inl e, st') →
       e = NotFound ∧ e ≠ InvalidArgument
       ∧ resolve (chat_db (self st)) (db st) = None ∧ st' = st).
Proof.
  split_and!.
  - intros [s Hs]. eexists. by apply add_attached.
  - intros s Hinv.
    destruct (add_live user_message ai_message st s Hinv)
      as (st' & s' & Hadd & Hinv' & Hes & _).
    exists st', s'. split_and!; [done|apply Hinv'|].
    by rewrite Hes, fmap_app.
  - intros e st' Hadd.
    destruct (resolve (chat_db (self st)) (db st)) as [s|] eqn:Hs.
    + by rewrite (add_attached _ _ _ s) in Hadd.
    + rewrite add_detached in Hadd by done. by injection Hadd as <- <-.
Qed.

(** C10: [get_all_entries] and [query_db] leave the instance and the
    database as they were, whatever the state and the arguments. *)
Theorem reads_leave_store (query_text : string) (n_results : Z) st :
  (get_all_entries st).2 = st ∧ (query_db query_text n_results st).2 = st.
Proof.
  split; run.
  - unfold Collection_get.
    destruct (resolve (chat_db (self st)) (db st)); simpl; [by destruct st|done].
  - unfold Collection_query. case_decide; [done|].
    destruct (resolve (chat_db (self st)) (db st)); simpl; [by destruct st|done].
Qed.

(** The entries a sequence of calls appends, each turn with the value the
    counter has at its call. *)
Lemma add_all_entries turns st s :
  store_inv st s →
  ∃ st' s',
    add_all turns st = (inr tt, st')
    ∧ store_inv st' s'
    ∧ stored_entries s' =
        stored_entries s
        ++ ((λ p : nat * (string * string),
               turn_entry
                 (OpenAIEmbeddingFunction OPENAI_API_KEY (model_name (self st)))
                 (Z.of_nat p.1) p.2)
            <$> zip (seq (Z.to_nat (id_counter (self st))) (length turns))
                    turns)
    ∧ id_counter (self st') = id_counter (self st) + Z.of_nat (length turns).
Proof.
  revert st s. induction turns as [|[u a] turns IH]; intros st s Hinv.
  - exists st, s. simpl. rewrite app_nil_r. split_and!; [done..|lia].
  - destruct (add_live u a st s Hinv)
      as (st1 & s1 & Hadd & Hinv1 & Hes & Hself).
    destruct (IH st1 s1 Hinv1) as (st' & s' & Hall & Hinv' & Hes' & Hn).
    pose proof Hinv as [_ _ _ _ Hpos _].
    exists st', s'. split; [|split; [done|]].
    + simpl. unfold mbind, M_bind. by rewrite Hadd.
    + rewrite Hes', Hn, Hes, Hself. simpl.
      replace (Z.to_nat (id_counter (self st) + 1))
        with (Datatypes.S (Z.to_nat (id_counter (self st)))) by lia.
      rewrite Z2Nat.id by done.
      rewrite <- (assoc_L (++)). split; [done|lia].
Qed.

(** C4: after any sequence of [add_conversation_to_db] calls on a store
    that is live and empty (as construction and [clear_db] leave it),
    [get_all_entries] returns exactly the turns added, each once and each
    with its own document and metadata under the id of its position in the
    sequence, in the order in which the backend lists them; the ids are
    pairwise distinct and are the strings "0", "1", ..., "n-1"; the counter
    is then n, and its string is none of the ids. *)
Theorem get_all_entries_after_adds (turns : list (string * string)) st s :
  store_inv st s →
  stored_entries s = [] →
  ∃ st' r (listed : list (nat * (string * string))),
    (add_all turns ;; get_all_entries) st = (inr r, st')
    ∧ listed ≡ₚ zip (seq 0 (length turns)) turns
    ∧ get_ids r = (λ p, str (Z.of_nat p.1)) <$> listed
    ∧ get_documents r =
        (λ p, "User: " +:+ p.2.1 +:+ LF +:+ "AI: " +:+ p.2.2) <$> listed
    ∧ get_metadatas r =
        (λ p, {[ "user_message" := p.2.1; "ai_message" := p.2.2 ]})
        <$> listed
    ∧ get_ids r ≡ₚ (λ i : nat, str (Z.of_nat i)) <$> seq 0 (length turns)
    ∧ NoDup (get_ids r)
    ∧ id_counter (self st') = Z.of_nat (length turns)
    ∧ str (id_counter (self st')) ∉ get_ids r.
Proof.
  intros Hinv Hempty.
  assert (Hzero : id_counter (self st) = 0).
  { destruct Hinv as [_ _ _ _ Hn Hids]. rewrite Hempty in Hids.
    unfold issued in Hids. symmetry in Hids.
    apply fmap_nil_inv in Hids.
    destruct (Z.to_nat (id_counter (self st))) eqn:Hk; [lia|done]. }
  destruct (add_all_entries turns st s Hinv)
    as (st' & s' & Hall & Hinv' & Hes & Hn).
  rewrite Hempty, Hzero in Hes. rewrite Hzero, Z.add_0_l in Hn.
  simpl in Hes.
  pose proof Hinv' as [Hres _ _ _ Hpos Hids].
  pose proof (listing_Permutation (stored_entries s')) as Hperm.
  assert (Hidsperm : entry_id <$> listing (stored_entries s')
                     ≡ₚ issued (id_counter (self st')))
    by by rewrite Hperm, Hids.
  rewrite Hes in Hperm at 2.
  apply Permutation_map_inv in Hperm as (listed & Hlisted & Hnumbered).
  eexists st', _, listed. split.
  { unfold mbind, M_bind. rewrite Hall. by apply get_all_attached. }
  simpl. rewrite Hlisted. rewrite Hlisted in Hidsperm.
  split_and!.
  - done.
  - by rewrite <- list_fmap_compose.
  - by rewrite <- list_fmap_compose.
  - by rewrite <- list_fmap_compose.
  - rewrite Hidsperm, Hn. by rewrite issued_of_nat.
  - rewrite Hidsperm. apply issued_NoDup.
  - done.
  - rewrite Hidsperm. apply str_not_issued. lia.
Qed.

(** C5, as the code has it: [ChatDB(name, model_name)] returns an instance
    exactly when the backend accepts the name and no collection of that
    name is stored; the instance is then live on a new, empty collection of
    that name with the cosine space and the given model, its counter is
    zero, and the other collections are untouched. A name that is already
    stored makes the constructor raise the backend's error: the existing
    collection is not opened. *)
Theorem new_ChatDB_creates (name model_name' : string) d :
  match new_ChatDB name model_name' d with
  | inr (o, d') =>
      valid_collection_name name = true
      ∧ collections d !! name = None
      ∧ (∃ s, store_inv {| self := o; db := d' |} s ∧ stored_entries s = [])
      ∧ coll_name (chat_db o) = name
      ∧ coll_metadata (chat_db o) = {["hnsw:space" := "cosine"]}
      ∧ model_name o = model_name'
      ∧ id_counter o = 0
      ∧ (∀ other, other ≠ name →
           collections d' !! other = collections d !! other)
  | inl e =>
      (e = InvalidArgument ∧ valid_collection_name name = false)
      ∨ (e = AlreadyExists ∧ valid_collection_name name = true
         ∧ is_Some (collections d !! name))
  end.
Proof.
  unfold new_ChatDB.
  destruct (valid_collection_name name) eqn:Hname.
  - destruct (collections d !! name) as [s0|] eqn:Hfree.
    + run. unfold create_collection. rewrite Hname. simpl. rewrite Hfree.
      right. eauto.
    + rewrite init_free by done. simpl. split_and!; try done.
      * eexists. split; [by apply initialised_inv|done].
      * intros other Hne. by rewrite lookup_insert_ne.
  - run. unfold create_collection. rewrite Hname. simpl. by left.
Qed.

(** What [clear_db] does to a live store, by the flag. *)
Lemma clear_live reinitialize st s :
  store_inv st s →
  clear_db reinitialize st =
    (inr tt,
     if reinitialize then
       initialised (coll_name (chat_db (self st))) (model_name (self st))
         {| next_id := next_id (db st);
            collections :=
              delete (coll_name (chat_db (self st))) (collections (db st)) |}
     else
       {| self := self st;
          db := {| next_id := next_id (db st);
                   collections :=
                     delete (coll_name (chat_db (self st)))
                            (collections (db st)) |} |}).
Proof.
  intros [[Hlook _]%resolve_Some Hname _ _ _ _].
  unfold clear_db, mbind, M_bind, attr, call. simpl.
  unfold delete_collection. rewrite Hlook. simpl.
  destruct reinitialize; [|done].
  apply init_free; [done|]. simpl. apply lookup_delete_eq.
Qed.

(** C6: [clear_db(reinitialize=True)] on a live store returns normally and
    leaves a live store on an empty collection of the same name and
    embedding model, with the counter at zero: [get_all_entries] returns
    nothing, and the next [add_conversation_to_db] is stored under the id
    "0". *)
Theorem clear_db_reinitialize st s :
  store_inv st s →
  ∃ st' s',
    clear_db true st = (inr tt, st')
    ∧ store_inv st' s'
    ∧ stored_entries s' = []
    ∧ coll_name (chat_db (self st')) = coll_name (chat_db (self st))
    ∧ model_name (self st') = model_name (self st)
    ∧ id_counter (self st') = 0
    ∧ get_all_entries st' =
        (inr {| get_ids := []; get_embeddings := None;
                get_documents := []; get_metadatas := [] |}, st')
    ∧ ∀ user_message ai_message, ∃ st'' r,
        (add_conversation_to_db user_message ai_message ;; get_all_entries) st'
          = (inr r, st'')
        ∧ get_ids r = ["0"].
Proof.
  intros Hinv. pose proof Hinv as [_ Hname _ _ _ _].
  eexists _, _. split; [by apply (clear_live true st s)|].
  set (st' := initialised _ _ _).
  assert (Hinv' : store_inv st' _) by by apply initialised_inv.
  split; [exact Hinv'|]. split_and!; try done.
  - rewrite (get_all_attached st' _ (inv_attached _ _ Hinv')). done.
  - intros u a.
    destruct (add_live u a st' _ Hinv') as (st'' & s'' & Hadd & Hinv'' & Hes & _).
    eexists st'', _. split.
    + unfold mbind, M_bind. rewrite Hadd.
      apply get_all_attached, Hinv''.
    + simpl. by rewrite Hes.
Qed.

(** C8, as the code has it: [clear_db(reinitialize=False)] on a live store
    returns normally and leaves the store destroyed. Every later call
    raises and changes nothing, so this holds for all calls that follow:
    [add_conversation_to_db], [get_all_entries] and [clear_db] raise
    NotFound, and so does [query_db] when [n_results] is positive; for
    [n_results] zero or negative the backend rejects the argument before it
    looks for the collection. *)
Theorem clear_db_destroys st s :
  store_inv st s →
  ∃ st',
    clear_db false st = (inr tt, st')
    ∧ destroyed st'
    ∧ (∀ user_message ai_message,
         add_conversation_to_db user_message ai_message st'
         = (inl NotFound, st'))
    ∧ get_all_entries st' = (inl NotFound, st')
    ∧ (∀ reinitialize, clear_db reinitialize st' = (inl NotFound, st'))
    ∧ (∀ query_text n_results,
         query_db query_text n_results st' =
         (inl (if decide (n_results ≤ 0) then InvalidArgument else NotFound),
          st')).
Proof.
  intros Hinv. eexists. split; [by apply (clear_live false st s)|].
  set (st' := {| self := self st |}).
  assert (Hgone : destroyed st') by apply lookup_delete_eq.
  assert (Hres : resolve (chat_db (self st')) (db st') = None)
    by by apply resolve_missing.
  split_and!; [done|..].
  - intros u a. by apply add_detached.
  - by apply get_all_detached.
  - intros b. by apply clear_destroyed.
  - intros q n. by apply query_detached.
Qed.

(** The validation of [n_results] comes before everything else. *)
Lemma query_rejected query_text n_results st :
  n_results ≤ 0 →
  query_db query_text n_results st = (inl InvalidArgument, st).
Proof.
  intros Hn. run. unfold Collection_query. by rewrite decide_True.
Qed.

(** C2, as the code has it: for every query text and every [n_results] of
    at least one, [query_db] on a live store holding k turns returns
    normally with exactly min(n_results, k) hits, all of them stored turns,
    listed with their cosine distances to the query in ascending order; no
    turn left out is closer than a hit. For [n_results] above k the result
    is the k turns, without an error. For every [n_results] of zero or
    less the backend rejects the argument: the call raises and changes
    nothing. *)
Theorem query_db_nearest (query_text : string) (n_results : Z) st s :
  store_inv st s →
  (n_results ≤ 0 →
   query_db query_text n_results st = (inl InvalidArgument, st))
  ∧ (1 ≤ n_results →
     ∃ hits rest : list Entry,
       let dist e :=
         distance "cosine"
           (embed OPENAI_API_KEY (model_name (self st)) query_text)
           (entry_embedding e) in
       query_db query_text n_results st =
         (inr {| ids := [entry_id <$> hits];
                 distances := [dist <$> hits];
                 metadatas := [entry_metadata <$> hits];
                 embeddings := None;
                 documents := [entry_document <$> hits] |}, st)
       ∧ Z.of_nat (length hits)
         = n_results `min` Z.of_nat (length (stored_entries s))
       ∧ hits ++ rest ≡ₚ stored_entries s
       ∧ Sorted Qle (dist <$> hits)
       ∧ ∀ x y, x ∈ hits → y ∈ rest → (dist x <= dist y)%Q).
Proof.
  intros [Hres _ Hspace Hef _ _]. split; [by apply query_rejected|].
  intros Hn.
  rewrite (query_attached _ _ _ s) by done.
  rewrite Hspace, Hef. simpl.
  set (q := embed _ _ _).
  set (k := Z.to_nat _).
  destruct (nearest_spec "cosine" q k (stored_entries s))
    as (hits & rest & -> & Hperm & Hlen & Hsorted & Hknn).
  exists hits, rest. split_and!; try done.
  - by rewrite <- !list_fmap_compose.
  - rewrite Hlen. subst k. lia.
Qed.

(** C7, as the code has it: for every query text and every [n_results] of
    at least one, [query_db] on a live store without turns returns the
    empty result and does not raise; for every [n_results] of zero or less
    the backend rejects the argument: the call raises and changes
    nothing. *)
Theorem query_db_empty (query_text : string) (n_results : Z) st s :
  store_inv st s →
  stored_entries s = [] →
  (1 ≤ n_results →
   query_db query_text n_results st =
     (inr {| ids := [[]]; distances := [[]]; metadatas := [[]];
             embeddings := None; documents := [[]] |}, st))
  ∧ (n_results ≤ 0 →
     query_db query_text n_results st = (inl InvalidArgument, st)).
Proof.
  intros [Hres _ _ _ _ _] Hempty. split; [|by apply query_rejected].
  intros Hn.
  rewrite (query_attached _ _ _ s) by done.
  rewrite Hempty. simpl. unfold nearest. simpl.
  by rewrite Z.min_r, take_0 by lia.
Qed.

End Properties.

(** * The scenarios of the notebook, on the stub environment *)

(** The invariant of a concrete state is checked by evaluation. *)
Ltac live_by_evaluation :=
  constructor; vm_compute; solve [reflexivity | discriminate].

(** C1 at the first turn of the scenario, on the store just constructed. *)
Lemma add_conversation_to_db_persists_witness :
  store_inv fresh_store (stored_of fresh_store)
  ∧ ∃ st',
      add_conversation_to_db "Hi, I'm Alice" "Hello Alice" fresh_store
      = (inr tt, st')
      ∧ id_counter (self st') = 1
      ∧ entry_id <$> stored_entries (stored_of st') = ["0"].
Proof.
  assert (Hlive : store_inv fresh_store (stored_of fresh_store))
    by live_by_evaluation.
  split; [exact Hlive|].
  destruct (add_conversation_to_db_persists "Hi, I'm Alice" "Hello Alice"
              fresh_store (stored_of fresh_store) Hlive)
    as (st' & s' & Hadd & Hres & Hes & Hn & _).
  exists st'. split; [exact Hadd|]. split; [exact Hn|].
  unfold stored_of. rewrite Hres. simpl. rewrite Hes. reflexivity.
Defined.

(** C3 on the destroyed store: the write raises NotFound. *)
Lemma add_conversation_to_db_failure_witness :
  Collection_add (chat_db (self destroyed_store))
    [conversation_document "Italian food" "What budget?"]
    [conversation_metadata "Italian food" "What budget?"]
    [str (id_counter (self destroyed_store))] (db destroyed_store)
  = inl NotFound
  ∧ add_conversation_to_db "Italian food" "What budget?" destroyed_store
    = (inl NotFound, destroyed_store).
Proof.
  split; [vm_compute; reflexivity|].
  apply (add_conversation_to_db_failure "Italian food" "What budget?"
           destroyed_store NotFound).
  vm_compute; reflexivity.
Defined.

(** C4 on the three turns of the scenario. *)
Lemma get_all_entries_after_adds_witness :
  store_inv fresh_store (stored_of fresh_store)
  ∧ stored_entries (stored_of fresh_store) = []
  ∧ ∃ st' r,
      (add_all three_turns ;; get_all_entries) fresh_store = (inr r, st')
      ∧ get_ids r ≡ₚ ["0"; "1"; "2"]
      ∧ NoDup (get_ids r)
      ∧ id_counter (self st') = 3.
Proof.
  assert (Hlive : store_inv fresh_store (stored_of fresh_store))
    by live_by_evaluation.
  assert (Hempty : stored_entries (stored_of fresh_store) = [])
    by (vm_compute; reflexivity).
  split; [exact Hlive|]. split; [exact Hempty|].
  destruct (get_all_entries_after_adds three_turns fresh_store
              (stored_of fresh_store) Hlive Hempty)
    as (st' & r & listed & Hrun & _ & _ & _ & _ & Hids & Hnodup & Hn & _).
  exists st', r. split; [exact Hrun|]. split; [exact Hids|].
  split; [exact Hnodup|exact Hn].
Defined.

(** C5 fails where the notebook is run a second time: the collection
    "chat_db" is already in the directory, and the constructor raises
    instead of opening it. *)
Lemma new_ChatDB_existing_name_raises :
  is_Some (collections (db three_turn_store) !! "chat_db")
  ∧ @valid_collection_name stub "chat_db" = true
  ∧ new_ChatDB "chat_db" "text-embedding-3-small" (db three_turn_store)
    = inl AlreadyExists.
Proof.
  split; [|split]; [|vm_compute; reflexivity..].
  eexists. vm_compute. reflexivity.
Qed.

(** C6 on the store holding the three turns. *)
Lemma clear_db_reinitialize_witness :
  store_inv three_turn_store (stored_of three_turn_store)
  ∧ ∃ st',
      clear_db true three_turn_store = (inr tt, st')
      ∧ id_counter (self st') = 0
      ∧ (get_all_entries st').1
        = inr {| get_ids := []; get_embeddings := None;
                 get_documents := []; get_metadatas := [] |}.
Proof.
  assert (Hlive : store_inv three_turn_store (stored_of three_turn_store))
    by live_by_evaluation.
  split; [exact Hlive|].
  destruct (clear_db_reinitialize three_turn_store
              (stored_of three_turn_store) Hlive)
    as (st' & s' & Hclear & _ & _ & _ & _ & Hn & Hget & _).
  exists st'. split; [exact Hclear|]. split; [exact Hn|].
  rewrite Hget. reflexivity.
Defined.

(** C8 on the store holding the three turns. *)
Lemma clear_db_destroys_witness :
  store_inv three_turn_store (stored_of three_turn_store)
  ∧ ∃ st',
      clear_db false three_turn_store = (inr tt, st')
      ∧ get_all_entries st' = (inl NotFound, st')
      ∧ query_db "Food" 3 st' = (inl NotFound, st').
Proof.
  assert (Hlive : store_inv three_turn_store (stored_of three_turn_store))
    by live_by_evaluation.
  split; [exact Hlive|].
  destruct (clear_db_destroys three_turn_store
              (stored_of three_turn_store) Hlive)
    as (st' & Hclear & _ & _ & Hget & _ & Hquery).
  exists st'. split; [exact Hclear|]. split; [exact Hget|].
  exact (Hquery "Food" 3).
Defined.

(** C8 fails for a query that asks for zero results: on the destroyed
    store the call raises the backend's argument error, not NotFound. *)
Lemma query_db_destroyed_zero_results :
  clear_db false three_turn_store = (inr tt, destroyed_store)
  ∧ query_db "Food" 0 destroyed_store = (inl InvalidArgument, destroyed_store)
  ∧ InvalidArgument ≠ NotFound.
Proof. split; [|split]; [vm_compute; reflexivity..|discriminate]. Qed.

(** C2 on the scenario: "Food" with [n_results] 5 on three turns, and
    with -1. *)
Lemma query_db_nearest_witness :
  store_inv three_turn_store (stored_of three_turn_store)
  ∧ 1 ≤ 5
  ∧ -1 ≤ 0
  ∧ (∃ r,
       query_db "Food" 5 three_turn_store = (inr r, three_turn_store)
       ∧ length <$> ids r = [3%nat]
       ∧ Forall (Sorted Qle) (distances r))
  ∧ query_db "Food" (-1) three_turn_store
    = (inl InvalidArgument, three_turn_store).
Proof.
  assert (Hlive : store_inv three_turn_store (stored_of three_turn_store))
    by live_by_evaluation.
  assert (Hn : 1 ≤ 5) by (vm_compute; discriminate).
  assert (Hneg : -1 ≤ 0) by (vm_compute; discriminate).
  split; [exact Hlive|]. split; [exact Hn|]. split; [exact Hneg|]. split.
  - destruct (proj2 (query_db_nearest "Food" 5 three_turn_store
                       (stored_of three_turn_store) Hlive) Hn)
      as (hits & rest & Hquery & Hlen & _ & Hsorted & _).
    eexists. split; [exact Hquery|]. simpl. split.
    + rewrite length_fmap. f_equal.
      apply Nat2Z.inj. rewrite Hlen. vm_compute. reflexivity.
    + constructor; [exact Hsorted|constructor].
  - exact (proj1 (query_db_nearest "Food" (-1) three_turn_store
                    (stored_of three_turn_store) Hlive) Hneg).
Defined.

(** C2 fails for [n_results] zero: on a live store holding one turn the
    call raises instead of returning min(0, 1) = 0 results. *)
Lemma query_db_zero_results_raises :
  store_inv one_turn_store (stored_of one_turn_store)
  ∧ length (stored_entries (stored_of one_turn_store)) = 1%nat
  ∧ query_db "Food" 0 one_turn_store = (inl InvalidArgument, one_turn_store).
Proof.
  split; [live_by_evaluation|]. split; vm_compute; reflexivity.
Qed.

(** C7 on the store just constructed, with the default [n_results], as
    the notebook queries the store it has just cleared, and with -3. *)
Lemma query_db_empty_witness :
  store_inv fresh_store (stored_of fresh_store)
  ∧ stored_entries (stored_of fresh_store) = []
  ∧ 1 ≤ default_n_results
  ∧ -3 ≤ 0
  ∧ query_db "Hello, my name is Alice, how are you?" default_n_results
             fresh_store
    = (inr {| ids := [[]]; distances := [[]]; metadatas := [[]];
              embeddings := None; documents := [[]] |}, fresh_store)
  ∧ query_db "Hello, my name is Alice, how are you?" (-3) fresh_store
    = (inl InvalidArgument, fresh_store).
Proof.
  assert (Hlive : store_inv fresh_store (stored_of fresh_store))
    by live_by_evaluation.
  assert (Hempty : stored_entries (stored_of fresh_store) = [])
    by (vm_compute; reflexivity).
  assert (Hn : 1 ≤ default_n_results) by (vm_compute; discriminate).
  assert (Hneg : -3 ≤ 0) by (vm_compute; discriminate).
  split; [exact Hlive|]. split; [exact Hempty|]. split; [exact Hn|].
  split; [exact Hneg|]. split.
  - exact (proj1 (query_db_empty "Hello, my name is Alice, how are you?"
                    default_n_results fresh_store (stored_of fresh_store)
                    Hlive Hempty) Hn).
  - exact (proj2 (query_db_empty "Hello, my name is Alice, how are you?"
                    (-3) fresh_store (stored_of fresh_store) Hlive Hempty)
             Hneg).
Defined.

(** C7 fails for [n_results] zero: on a live store without turns the call
    raises instead of returning the empty result. *)
Lemma query_db_empty_zero_results_raises :
  store_inv fresh_store (stored_of fresh_store)
  ∧ stored_entries (stored_of fresh_store) = []
  ∧ query_db "Food" 0 fresh_store = (inl InvalidArgument, fresh_store).
Proof.
  split; [live_by_evaluation|]. split; vm_compute; reflexivity.
Qed.

(** C9 on the store just constructed, with two empty messages. *)
Lemma add_conversation_to_db_no_validation_witness :
  is_Some (resolve (chat_db (self fresh_store)) (db fresh_store))
  ∧ ∃ st', add_conversation_to_db EmptyString EmptyString fresh_store
           = (inr tt, st').
Proof.
  assert (Hsome : is_Some (resolve (chat_db (self fresh_store))
                                   (db fresh_store))).
  { eexists. vm_compute. reflexivity. }
  split; [exact Hsome|].
  exact (proj1 (add_conversation_to_db_no_validation
                  EmptyString EmptyString fresh_store) Hsome).
Defined.

(** C5, as the code has it, in an empty directory: the constructor returns
    the store the scenarios start from. *)
Lemma new_ChatDB_creates_witness :
  ∃ o d',
    new_ChatDB "chat_db" "text-embedding-3-small" empty_db = inr (o, d')
    ∧ id_counter o = 0
    ∧ coll_name (chat_db o) = "chat_db"
    ∧ model_name o = "text-embedding-3-small".
Proof.
  pose proof (new_ChatDB_creates "chat_db" "text-embedding-3-small" empty_db)
    as Hnew.
  destruct (new_ChatDB "chat_db" "text-embedding-3-small" empty_db)
    as [e|[o d']] eqn:Hrun.
  - exfalso. vm_compute in Hrun. discriminate Hrun.
  - destruct Hnew as (_ & _ & _ & Hname & _ & Hmodel & Hn & _).
    exists o, d'. split; [reflexivity|]. split; [exact Hn|].
    split; [exact Hname|exact Hmodel].
Defined.

(** * Further properties of the class *)

Section ClassProperties.

Context `{Env : Environment}.

Implicit Types (st : State) (s : Stored) (h : Collection) (d : Database).

(** *** Strings *)

Lemma string_app_cons (x : ascii) (a b : string) :
  String x a +:+ b = String x (a +:+ b).
Proof. done. Qed.

Lemma string_app_assoc (a b c : string) : (a +:+ b) +:+ c = a +:+ b +:+ c.
Proof.
  induction a as [|x a IH]; [done|]. rewrite !string_app_cons. by f_equal.
Qed.

Lemma string_app_nil_r (a : string) : a +:+ EmptyString = a.
Proof.
  induction a as [|x a IH]; [done|]. rewrite string_app_cons. by f_equal.
Qed.

Lemma string_app_length (a b : string) :
  String.length (a +:+ b) = (String.length a + String.length b)%nat.
Proof.
  induction a as [|x a IH]; [done|]. rewrite string_app_cons. simpl.
  by f_equal.
Qed.

(** *** Ids and entries *)

Lemma issued_length n : length (issued n) = Z.to_nat n.
Proof. unfold issued. by rewrite length_fmap, length_seq. Qed.

(** X1: on a live store [get_all_entries] returns normally, and the ids it
    returns are, in the order of the backend's listing, exactly the decimal
    strings of 0, ..., id_counter - 1, each once: the counter is the number
    of turns stored, and each of the three lists has that length. *)
Theorem counter_counts_entries st s :
  store_inv st s →
  ∃ r,
    get_all_entries st = (inr r, st)
    ∧ get_ids r ≡ₚ
        (λ i : nat, str (Z.of_nat i))
        <$> seq 0 (Z.to_nat (id_counter (self st)))
    ∧ NoDup (get_ids r)
    ∧ Z.of_nat (length (get_ids r)) = id_counter (self st)
    ∧ length (get_documents r) = length (get_ids r)
    ∧ length (get_metadatas r) = length (get_ids r).
Proof.
  intros [Hres _ _ _ Hn Hids].
  eexists. split; [by apply get_all_attached|]. simpl.
  assert (Hperm : entry_id <$> listing (stored_entries s)
                  ≡ₚ issued (id_counter (self st)))
    by by rewrite listing_Permutation, Hids.
  split_and!.
  - done.
  - rewrite Hperm. apply issued_NoDup.
  - rewrite Hperm, issued_length. lia.
  - by rewrite !length_fmap.
  - by rewrite !length_fmap.
Qed.

Lemma zip_fmap_same {A B C} (f : A → B) (g : A → C) (l : list A) :
  zip (f <$> l) (g <$> l) = (λ x, (f x, g x)) <$> l.
Proof. induction l as [|x l IH]; [done|]. csimpl. by rewrite IH. Qed.

(** The turn an entry stands for in a [get] result. *)
Lemma records_attached st s (r : GetResult) st' :
  resolve (chat_db (self st)) (db st) = Some s →
  get_all_entries st = (inr r, st') →
  records r ≡ₚ
    (λ e, (entry_id e, (entry_document e, entry_metadata e)))
    <$> stored_entries s.
Proof.
  intros Hs Hget. rewrite (get_all_attached st s Hs) in Hget.
  injection Hget as <- _. unfold records. simpl.
  rewrite (zip_fmap_same entry_document entry_metadata).
  rewrite (zip_fmap_same entry_id (λ e, (entry_document e, entry_metadata e))).
  by rewrite listing_Permutation.
Qed.

(** X2: the store is append-only under [add_conversation_to_db]. After any
    sequence of calls on a live store, the turns [get_all_entries] returns
    (each id with its document and metadata) are the turns it returned
    before, unchanged, together with one turn per call, which carries the
    messages of the call under the value the counter had at it; the order
    of the listing is the backend's. *)
Theorem adds_append_only (turns : list (string * string)) st s :
  store_inv st s →
  ∃ st' r r',
    get_all_entries st = (inr r, st)
    ∧ (add_all turns ;; get_all_entries) st = (inr r', st')
    ∧ records r' ≡ₚ
        records r
        ++ ((λ p : nat * (string * string),
               (str (Z.of_nat p.1),
                ("User: " +:+ p.2.1 +:+ LF +:+ "AI: " +:+ p.2.2,
                 {[ "user_message" := p.2.1; "ai_message" := p.2.2 ]})))
            <$> zip (seq (Z.to_nat (id_counter (self st))) (length turns))
                    turns)
    ∧ length (get_ids r') = (length (get_ids r) + length turns)%nat
    ∧ length (get_documents r') = length (get_ids r')
    ∧ length (get_metadatas r') = length (get_ids r').
Proof.
  intros Hinv.
  destruct (add_all_entries turns st s Hinv)
    as (st' & s' & Hall & Hinv' & Hes & Hn).
  pose proof Hinv as [Hres _ _ _ Hpos Hids].
  pose proof Hinv' as [Hres' _ _ _ Hpos' Hids'].
  pose proof (get_all_attached st s Hres) as Hget.
  pose proof (get_all_attached st' s' Hres') as Hget'.
  eexists st', _, _. split; [exact Hget|]. split.
  { unfold mbind, M_bind. rewrite Hall. exact Hget'. }
  split_and!.
  - rewrite (records_attached st' s' _ _ Hres' Hget').
    rewrite (records_attached st s _ _ Hres Hget).
    rewrite Hes, fmap_app. apply Permutation_app_head.
    by rewrite <- list_fmap_compose.
  - simpl. rewrite !length_fmap.
    rewrite (Permutation_length (listing_Permutation (stored_entries s'))).
    rewrite (Permutation_length (listing_Permutation (stored_entries s))).
    rewrite Hes, length_app, length_fmap, length_zip_with, length_seq. lia.
  - simpl. by rewrite !length_fmap.
  - simpl. by rewrite !length_fmap.
Qed.

Lemma conversation_metadata_lookup (user_message ai_message : string) :
  conversation_metadata user_message ai_message !! "user_message"
    = Some user_message
  ∧ conversation_metadata user_message ai_message !! "ai_message"
    = Some ai_message.
Proof.
  unfold conversation_metadata. split.
  - by rewrite lookup_insert_eq.
  - rewrite lookup_insert_ne by done. by rewrite lookup_singleton_eq.
Qed.

(** X3: the messages can be read back. After any sequence of calls of
    [add_conversation_to_db] on a live store without turns, the metadata
    [get_all_entries] returns give, under the keys "user_message" and
    "ai_message", the two messages of every call, each call once, in the
    order of the backend's listing; and each document returned is "User: ",
    a line feed and "AI: " around the two messages of the metadata at its
    position. *)
Theorem metadata_reads_back_messages (turns : list (string * string)) st s :
  store_inv st s →
  stored_entries s = [] →
  ∃ st' r,
    (add_all turns ;; get_all_entries) st = (inr r, st')
    ∧ (λ m : gmap string string, (m !! "user_message", m !! "ai_message"))
        <$> get_metadatas r
      ≡ₚ (λ t, (Some t.1, Some t.2)) <$> turns
    ∧ Forall2 (λ doc (m : gmap string string),
                 ∃ u a, m !! "user_message" = Some u
                        ∧ m !! "ai_message" = Some a
                        ∧ doc = "User: " +:+ u +:+ LF +:+ "AI: " +:+ a)
              (get_documents r) (get_metadatas r).
Proof.
  intros Hinv Hempty.
  destruct (add_all_entries turns st s Hinv)
    as (st' & s' & Hall & Hinv' & Hes & _).
  rewrite Hempty in Hes. simpl in Hes.
  pose proof (listing_Permutation (stored_entries s')) as Hperm.
  eexists st', _. split.
  { unfold mbind, M_bind. rewrite Hall. apply get_all_attached, Hinv'. }
  simpl. split.
  - rewrite Hperm, Hes, <- !list_fmap_compose.
    set (numbered := zip _ turns).
    assert (Hturns : turns = snd <$> numbered).
    { subst numbered. rewrite snd_zip; [done|]. rewrite length_seq. lia. }
    rewrite Hturns at 1. rewrite <- list_fmap_compose.
    apply eq_subrelation; [apply _|].
    apply list_fmap_ext. intros i [k [u a]] _. unfold compose. cbn [fst snd].
    unfold turn_entry. cbn [entry_metadata fst snd].
    by destruct (conversation_metadata_lookup u a) as [-> ->].
  - apply Forall2_fmap, Forall_Forall2_diag, Forall_forall.
    intros e He. rewrite Hperm, Hes in He.
    apply list_elem_of_fmap in He as ([k [u a]] & -> & _).
    exists u, a. unfold turn_entry. cbn [entry_metadata entry_document fst snd].
    by destruct (conversation_metadata_lookup u a) as [-> ->].
Qed.

(** X4: the document does not determine the turn. A user message that
    ends in a line feed, "AI: " and some text gives the same document as
    the turn in which that text opens the reply; the two turns differ, and
    so do their metadata. *)
Theorem conversation_document_ambiguous (u a b : string) :
  conversation_document (u +:+ LF +:+ "AI: " +:+ a) b
  = conversation_document u (a +:+ LF +:+ "AI: " +:+ b)
  ∧ u +:+ LF +:+ "AI: " +:+ a ≠ u
  ∧ conversation_metadata (u +:+ LF +:+ "AI: " +:+ a) b
    ≠ conversation_metadata u (a +:+ LF +:+ "AI: " +:+ b).
Proof.
  assert (Hne : u +:+ LF +:+ "AI: " +:+ a ≠ u).
  { intros Heq. apply (f_equal String.length) in Heq.
    rewrite !string_app_length in Heq. simpl in Heq. lia. }
  split_and!; [|done|].
  - unfold conversation_document. by rewrite !string_app_assoc.
  - intros Heq. apply (f_equal (λ m, m !! "user_message")) in Heq.
    destruct (conversation_metadata_lookup (u +:+ LF +:+ "AI: " +:+ a) b)
      as [Hl _].
    destruct (conversation_metadata_lookup u (a +:+ LF +:+ "AI: " +:+ b))
      as [Hr _].
    rewrite Hl, Hr in Heq. by injection Heq.
Qed.

Lemma add_leaves_other_collections (other user_message ai_message : string)
    st :
  other ≠ coll_name (chat_db (self st)) →
  collections (db (add_conversation_to_db user_message ai_message st).2)
    !! other
  = collections (db st) !! other.
Proof.
  intros Hother.
  destruct (resolve (chat_db (self st)) (db st)) as [s|] eqn:Hs.
  - rewrite (add_attached user_message ai_message st s Hs). simpl.
    by rewrite lookup_insert_ne.
  - by rewrite (add_detached user_message ai_message st Hs).
Qed.

Lemma clear_leaves_other_collections (other : string) reinitialize st :
  other ≠ coll_name (chat_db (self st)) →
  collections (db (clear_db reinitialize st).2) !! other
  = collections (db st) !! other.
Proof.
  intros Hother. unfold clear_db, mbind, M_bind, attr, call. simpl.
  unfold delete_collection.
  destruct (collections (db st) !! coll_name (chat_db (self st)))
    as [s|] eqn:Hs; simpl; [|done].
  destruct reinitialize; simpl; [|by rewrite lookup_delete_ne].
  unfold __init__, mbind, M_bind, attr, assign, call. simpl.
  unfold create_collection.
  destruct (valid_collection_name (coll_name (chat_db (self st)))); simpl.
  - rewrite lookup_delete_eq. simpl.
    rewrite lookup_insert_ne by done. by rewrite lookup_delete_ne.
  - by rewrite lookup_delete_ne.
Qed.

(** X5: the methods touch no collection but their own. Whatever the state
    and whatever the outcome, a collection stored under another name is the
    same after [add_conversation_to_db], [clear_db], [get_all_entries] and
    [query_db] as before. *)
Theorem methods_leave_other_collections (other : string) st :
  other ≠ coll_name (chat_db (self st)) →
  (∀ user_message ai_message,
     collections (db (add_conversation_to_db user_message ai_message st).2)
       !! other
     = collections (db st) !! other)
  ∧ (∀ reinitialize,
       collections (db (clear_db reinitialize st).2) !! other
       = collections (db st) !! other)
  ∧ collections (db (get_all_entries st).2) !! other
    = collections (db st) !! other
  ∧ (∀ query_text n_results,
       collections (db (query_db query_text n_results st).2) !! other
       = collections (db st) !! other).
Proof.
  intros Hother. split_and!.
  - intros u a. by apply add_leaves_other_collections.
  - intros b. by apply clear_leaves_other_collections.
  - destruct (resolve (chat_db (self st)) (db st)) as [s|] eqn:Hs.
    + by rewrite (get_all_attached st s).
    + by rewrite get_all_detached.
  - intros q n. unfold query_db, mbind, M_bind, attr, call. simpl.
    unfold Collection_query. case_decide; [done|].
    by destruct (resolve (chat_db (self st)) (db st)).
Qed.

Lemma nearest_take space (q : Embedding) (n k : nat) (es : list Entry) :
  take n (nearest space q k es) = nearest space q (n `min` k) es.
Proof. unfold nearest. by rewrite take_take. Qed.

(** X6: asking for fewer results gives a prefix. When [query_db] returns
    for [m] results, it returns for every [n] from 1 to [m], and each list
    of its result is the first [n] elements of the list for [m]. *)
Theorem query_db_fewer_is_prefix (query_text : string) (n m : Z) st st'
    (r : QueryResult) :
  1 ≤ n ≤ m →
  query_db query_text m st = (inr r, st') →
  query_db query_text n st =
    (inr {| ids := take (Z.to_nat n) <$> ids r;
            distances := take (Z.to_nat n) <$> distances r;
            metadatas := take (Z.to_nat n) <$> metadatas r;
            embeddings := None;
            documents := take (Z.to_nat n) <$> documents r |}, st).
Proof.
  intros Hnm Hm.
  destruct (resolve (chat_db (self st)) (db st)) as [s|] eqn:Hs.
  - rewrite (query_attached _ _ _ s) in Hm by (done || lia).
    rewrite (query_attached _ _ _ s) by (done || lia).
    injection Hm as <- _. simpl. rewrite <- !fmap_take, nearest_take.
    replace (Z.to_nat n
             `min` Z.to_nat (m `min` Z.of_nat (length (stored_entries s))))%nat
      with (Z.to_nat (n `min` Z.of_nat (length (stored_entries s)))) by lia.
    done.
  - rewrite query_detached in Hm by done. by case_decide.
Qed.

(** X7: a query for at least as many results as there are turns returns
    every turn. On a live store and for [n_results] at least one and at
    least the number of turns, the ids [query_db] returns are the ids
    [get_all_entries] returns, each once, in order of distance. *)
Theorem query_db_returns_every_turn (query_text : string) (n_results : Z)
    st s :
  store_inv st s →
  1 ≤ n_results →
  Z.of_nat (length (stored_entries s)) ≤ n_results →
  ∃ r all hits,
    query_db query_text n_results st = (inr r, st)
    ∧ get_all_entries st = (inr all, st)
    ∧ ids r = [hits]
    ∧ hits ≡ₚ get_ids all
    ∧ NoDup hits.
Proof.
  intros [Hres _ _ _ _ Hids] Hn Hk.
  rewrite (query_attached _ _ _ s), (get_all_attached _ s) by done. simpl.
  set (q := embed _ _ _).
  destruct (nearest_spec (space_of s) q
              (Z.to_nat (n_results `min` Z.of_nat (length (stored_entries s))))
              (stored_entries s))
    as (hits & rest & -> & Hperm & Hlen & _ & _).
  assert (Hrest : rest = []).
  { apply Permutation_length in Hperm. rewrite length_app in Hperm.
    apply nil_length_inv. lia. }
  subst rest. rewrite app_nil_r in Hperm.
  eexists _, _, _. split_and!; try done.
  - rewrite <- list_fmap_compose.
    transitivity (entry_id <$> stored_entries s).
    + by apply fmap_Permutation.
    + symmetry. apply fmap_Permutation, listing_Permutation.
  - rewrite <- list_fmap_compose.
    change ((λ x : Q * Entry, entry_id x.2) ∘ _) with entry_id.
    rewrite Hperm, Hids. apply issued_NoDup.
Qed.

(** X8: [clear_db] deletes by name. After [clear_db(reinitialize=False)]
    on a live store whose collection id is below the next free one, a new
    [ChatDB] of the same name is constructed without error; the old
    instance still raises NotFound on [get_all_entries] and
    [add_conversation_to_db], but its [clear_db] returns normally and
    deletes the collection of the new instance, which is destroyed by
    it. *)
Theorem clear_db_on_reused_name (model_name' : string) st s :
  store_inv st s →
  (coll_id (chat_db (self st)) < next_id (db st))%N →
  ∃ new d,
    new_ChatDB (coll_name (chat_db (self st))) model_name'
               (db (clear_db false st).2) = inr (new, d)
    ∧ live {| self := new; db := d |}
    ∧ get_all_entries {| self := self st; db := d |}
      = (inl NotFound, {| self := self st; db := d |})
    ∧ (∀ user_message ai_message,
         add_conversation_to_db user_message ai_message
           {| self := self st; db := d |}
         = (inl NotFound, {| self := self st; db := d |}))
    ∧ (clear_db false {| self := self st; db := d |}).1 = inr tt
    ∧ destroyed
        {| self := new;
           db := db (clear_db false {| self := self st; db := d |}).2 |}.
Proof.
  intros Hinv Hlt. pose proof Hinv as [[Hlook Hid]%resolve_Some Hname _ _ _ _].
  rewrite (clear_live false st s Hinv). cbn [snd db].
  set (d0 := {| next_id := next_id (db st) |}).
  unfold new_ChatDB. rewrite init_free by (done || apply lookup_delete_eq).
  set (w := initialised _ _ _). eexists _, _. split; [done|].
  assert (Hinv_w : store_inv w _) by by apply initialised_inv.
  assert (Hstale : resolve (chat_db (self st)) (db w) = None).
  { unfold resolve. simpl. rewrite lookup_insert_eq. simpl.
    rewrite decide_False; [done|lia]. }
  assert (Hnew : collections (db w) !! coll_name (chat_db (self st))
                 = Some {| stored_id := next_id d0;
                           stored_metadata := {["hnsw:space" := "cosine"]};
                           stored_entries := [] |}).
  { simpl. by rewrite lookup_insert_eq. }
  split_and!.
  - eexists. destruct Hinv_w. by constructor.
  - by apply get_all_detached.
  - intros u a. by apply add_detached.
  - unfold clear_db, mbind, M_bind, attr, call, delete_collection.
    cbn [self db]. by rewrite Hnew.
  - unfold destroyed, clear_db, mbind, M_bind, attr, call, delete_collection.
    cbn [self db]. rewrite Hnew. simpl. apply lookup_delete_eq.
Qed.

End ClassProperties.

(** * Properties of the functions around the class *)

Section SessionProperties.

Context `{Env : Environment} `{Svc : Services}.

Implicit Types (st : State) (s : Stored) (w : Session) (r : Ref).

(** *** Formatting *)

Example format_2f_rounds :
  format_2f (69 # 100) = "0.69" ∧ format_2f (7267 # 10000) = "0.73"
  ∧ format_2f (1 # 8) = "0.12" ∧ format_2f (3 # 8) = "0.38"
  ∧ format_2f (-1 # 1000) = "-0.00" ∧ format_2f (5 # 2) = "2.50".
Proof. by vm_compute. Qed.

(** *** [combined_context] *)

Lemma string_app_nil_inv (a b : string) :
  a +:+ b = EmptyString → a = EmptyString ∧ b = EmptyString.
Proof. destruct a; [done|]. rewrite string_app_cons. done. Qed.

Lemma context_block_nonempty (document : string) (score : Q) :
  context_block document score ≠ EmptyString.
Proof.
  unfold context_block. intros Heq.
  apply string_app_nil_inv in Heq as [_ Heq]. done.
Qed.

Lemma combined_context_acc (acc : string) (l : list (string * Q)) :
  foldl (λ string ds, string +:+ context_block ds.1 ds.2) acc l
  = acc +:+ foldl (λ string ds, string +:+ context_block ds.1 ds.2)
                  EmptyString l.
Proof.
  revert acc. induction l as [|x l IH]; intros acc; simpl.
  - by rewrite string_app_nil_r.
  - rewrite (IH (acc +:+ _)), (IH (EmptyString +:+ _)).
    by rewrite string_app_assoc.
Qed.

Lemma combined_context_cons document score documents scores :
  combined_context (document :: documents) (score :: scores)
  = context_block document score +:+ combined_context documents scores.
Proof. unfold combined_context. simpl. apply combined_context_acc. Qed.

Lemma combined_context_nil_inv documents scores :
  combined_context documents scores = EmptyString →
  zip documents scores = [].
Proof.
  destruct documents as [|d ds], scores as [|x xs]; try done.
  rewrite combined_context_cons. intros [Hd _]%string_app_nil_inv.
  by apply context_block_nonempty in Hd.
Qed.

(** X9: [combined_context] returns the empty string exactly when one of
    its two lists is empty; this is the case in which [get_context] falls
    back to its fixed sentence. *)
Theorem combined_context_empty_iff (documents : list string)
    (scores : list Q) :
  combined_context documents scores = EmptyString
  ↔ documents = [] ∨ scores = [].
Proof.
  split.
  - intros Hnil%combined_context_nil_inv. by apply zip_with_nil_inv in Hnil.
  - intros [-> | ->]; unfold combined_context.
    + done.
    + by rewrite zip_with_nil_r.
Qed.

(** X10: [combined_context] pairs documents and scores by position and
    drops what is left over of the longer list: the result is the one for
    the first min(len(documents), len(scores)) elements of both, and it is
    one block per pair, the block of the first pair first. *)
Theorem combined_context_truncates (documents : list string)
    (scores : list Q) :
  let k := (length documents `min` length scores)%nat in
  combined_context documents scores
  = combined_context (take k documents) (take k scores)
  ∧ combined_context documents scores
    = foldr (λ ds rest, ds.1 +:+ LF +:+ "Cosine distance: "
                        +:+ format_2f ds.2 +:+ LF +:+ "----------" +:+ LF
                        +:+ rest)
            EmptyString (zip (take k documents) (take k scores)).
Proof.
  intros k.
  assert (Hzip : zip (take k documents) (take k scores) = zip documents scores).
  { rewrite zip_with_take_l' by (rewrite length_take; lia).
    apply zip_with_take_r'. lia. }
  split.
  - unfold combined_context. by rewrite Hzip.
  - rewrite Hzip. clear k Hzip. revert scores.
    induction documents as [|d ds IH]; intros [|x xs]; try done.
    rewrite combined_context_cons, IH. simpl.
    unfold context_block. by rewrite !string_app_assoc.
Qed.

(** X11: [combined_context] of two concatenated lists of documents and of
    scores is the concatenation of the two contexts, when the first list of
    documents has as many elements as the first list of scores. *)
Theorem combined_context_app (documents1 documents2 : list string)
    (scores1 scores2 : list Q) :
  length documents1 = length scores1 →
  combined_context (documents1 ++ documents2) (scores1 ++ scores2)
  = combined_context documents1 scores1
    +:+ combined_context documents2 scores2.
Proof.
  intros Hlen. unfold combined_context.
  rewrite zip_with_app by done. rewrite foldl_app.
  apply combined_context_acc.
Qed.

(** *** [get_context] *)

Lemma update_view r w : update r (deref r w) (disk w) w = w.
Proof. by destruct r, w. Qed.

Lemma method_unchanged {A} r (m : M A) w (x : Result A) :
  m (view r w) = (x, view r w) →
  method r m w
  = (match x with inl e => inl (Raised e) | inr a => inr a end, w).
Proof. intros Hm. unfold method. rewrite Hm. simpl. by rewrite update_view. Qed.

Lemma get_context_attached user_input n_results r w s :
  resolve (chat_db (deref r w)) (disk w) = Some s →
  get_context user_input n_results r w =
    (inr (context_of
            (embed (api_key (coll_ef (chat_db (deref r w))))
                   (ef_model_name (coll_ef (chat_db (deref r w))))
                   user_input) s), w).
Proof.
  intros Hs. unfold get_context, mbind, S_bind.
  rewrite (method_unchanged r _ w
             (query_db user_input 2 (view r w)).1).
  - rewrite (query_attached user_input 2 (view r w) s) by done. done.
  - rewrite (query_attached user_input 2 (view r w) s) by done. done.
Qed.

Lemma get_context_detached user_input n_results r w :
  resolve (chat_db (deref r w)) (disk w) = None →
  get_context user_input n_results r w = (inl (Raised NotFound), w).
Proof.
  intros Hs. unfold get_context, mbind, S_bind.
  rewrite (method_unchanged r _ w (inl NotFound)); [done|].
  by rewrite query_detached.
Qed.

(** X12: on a live store [get_context] returns normally, whatever
    [n_results] is passed, and changes nothing. It returns the fixed
    sentence "No relevant chat history found." exactly when the store has
    no turns; otherwise it returns the blocks of min(2, k) stored turns
    with their cosine distances to the input, closest first, and no turn
    left out is closer than one of them. *)
Theorem get_context_live (user_input : string) (n_results : Z) r w s :
  store_inv (view r w) s →
  ∃ hits rest : list Entry,
    let dist e :=
      distance "cosine"
        (embed OPENAI_API_KEY (model_name (deref r w)) user_input)
        (entry_embedding e) in
    hits ++ rest ≡ₚ stored_entries s
    ∧ length hits = (2 `min` length (stored_entries s))%nat
    ∧ Sorted Qle (dist <$> hits)
    ∧ (∀ x y, x ∈ hits → y ∈ rest → (dist x <= dist y)%Q)
    ∧ get_context user_input n_results r w =
        (inr (if decide (stored_entries s = [])
              then "No relevant chat history found."
              else combined_context (entry_document <$> hits)
                                    (dist <$> hits)), w).
Proof.
  intros [Hres _ Hspace Hef _ _]. simpl in Hres, Hef.
  rewrite (get_context_attached _ _ _ _ s) by done.
  unfold context_of. rewrite Hspace, Hef. simpl.
  set (q := embed _ _ _).
  destruct (nearest_spec "cosine" q
              (Z.to_nat (2 `min` Z.of_nat (length (stored_entries s))))
              (stored_entries s))
    as (hits & rest & -> & Hperm & Hlen & Hsorted & Hknn).
  exists hits, rest. split_and!; [done| |done|done|].
  { rewrite Hlen. destruct (length (stored_entries s)) as [|[|k]]; lia. }
  rewrite <- !list_fmap_compose.
  change ((λ x : Q * Entry, entry_document x.2) ∘ _) with entry_document.
  change (fst ∘ _) with (λ e, distance "cosine" q (entry_embedding e)).
  do 2 f_equal. case_decide as Hctx; case_decide as Hes; try done.
  - apply combined_context_nil_inv, zip_with_nil_inv in Hctx.
    assert (hits = []) as ->
      by (by destruct Hctx as [?%fmap_nil_inv| ?%fmap_nil_inv]).
    destruct (stored_entries s); [done|]. simpl in Hlen. lia.
  - rewrite Hes in Hlen. destruct hits; [|done]. by destruct Hctx.
Qed.

(** X13: on a destroyed store [get_context] raises the NotFound of the
    query, whatever [n_results] is passed; the fixed sentence is not
    returned for a store that is gone, and nothing changes. *)
Theorem get_context_destroyed (user_input : string) (n_results : Z) r w :
  destroyed (view r w) →
  get_context user_input n_results r w = (inl (Raised NotFound), w).
Proof. intros Hgone. by apply get_context_detached, resolve_missing. Qed.

(** X14: in every session [get_context] leaves the objects and the
    database as they were, never raises IndexError on its two subscripts,
    and does not depend on its [n_results] argument: zero, a negative
    number or a large one give what the default gives. *)
Theorem get_context_reads_only (user_input : string) (n_results : Z) r w :
  (get_context user_input n_results r w).2 = w
  ∧ (get_context user_input n_results r w).1 ≠ inl IndexError
  ∧ get_context user_input n_results r w
    = get_context user_input default_n_results r w.
Proof.
  split_and!; [| |done].
  - destruct (resolve (chat_db (deref r w)) (disk w)) as [s|] eqn:Hs.
    + by rewrite (get_context_attached _ _ _ _ s).
    + by rewrite get_context_detached.
  - destruct (resolve (chat_db (deref r w)) (disk w)) as [s|] eqn:Hs.
    + by rewrite (get_context_attached _ _ _ _ s).
    + by rewrite get_context_detached.
Qed.

(** *** [chat_with_db] *)

Lemma view_update r (o : ChatDB) (d : Database) w :
  view r (update r o d w) = {| self := o; db := d |}.
Proof. by destruct r. Qed.

Lemma chat_with_db_step user_input r system_prompt' w context :
  get_context user_input default_n_results the_global w = (inr context, w) →
  chat_with_db user_input r system_prompt' w =
    (let response :=
       chat_completions_create "gpt-4o-mini"
         [ {| role := "system"; content := system_prompt' |};
           {| role := "user";
              content :=
                load_template "prompts/datastore_user_prompt.jinja"
                  {[ "input_message" := user_input;
                     "relevant_chat_history" := context ]} |} ] in
     let res := add_conversation_to_db user_input response (view r w) in
     (match res.1 with
      | inl e => inl (Raised e)
      | inr _ => inr (context, response)
      end, update r (self res.2) (db res.2) w)).
Proof.
  intros Hctx. unfold chat_with_db, mbind, S_bind. rewrite Hctx.
  unfold method. simpl.
  by destruct (add_conversation_to_db _ _ _) as [[e|[]] st'].
Qed.

Lemma store_inv_frame (o : ChatDB) (d d' : Database) s :
  store_inv {| self := o; db := d |} s →
  collections d' !! coll_name (chat_db o)
  = collections d !! coll_name (chat_db o) →
  store_inv {| self := o; db := d' |} s.
Proof.
  intros [[Hlook Hid]%resolve_Some ? ? ? ? ?] Hsame. simpl in *.
  constructor; simpl; try done.
  apply resolve_Some. by rewrite Hsame.
Qed.

(** X15: [chat_with_db] on the default store, when it is live. The call
    returns normally the context [get_context] gives before the call and
    the response of the completion to the system prompt and the rendered
    user prompt; the store then holds one more turn, whose messages are the
    user input and that very response, under the id of the counter, which
    is one more afterwards. The turn of the call is therefore not part of
    the context returned with it, and the other object is untouched. *)
Theorem chat_with_db_default_store (user_input system_prompt' : string) w s :
  store_inv (view the_global w) s →
  ∃ context w' s',
    let response :=
      chat_completions_create "gpt-4o-mini"
        [ {| role := "system"; content := system_prompt' |};
          {| role := "user";
             content :=
               render "prompts/datastore_user_prompt.jinja"
                 {[ "input_message" := user_input;
                    "relevant_chat_history" := context ]} |} ] in
    get_context user_input default_n_results the_global w = (inr context, w)
    ∧ chat_with_db user_input the_global system_prompt' w
      = (inr (context, response), w')
    ∧ store_inv (view the_global w') s'
    ∧ stored_entries s' =
        stored_entries s
        ++ [{| entry_id := str (id_counter (global_chat_db w));
               entry_embedding :=
                 embed OPENAI_API_KEY (model_name (global_chat_db w))
                       ("User: " +:+ user_input +:+ LF
                        +:+ "AI: " +:+ response);
               entry_document :=
                 "User: " +:+ user_input +:+ LF +:+ "AI: " +:+ response;
               entry_metadata :=
                 {[ "user_message" := user_input;
                    "ai_message" := response ]} |}]
    ∧ id_counter (global_chat_db w') = id_counter (global_chat_db w) + 1
    ∧ other_chat_db w' = other_chat_db w.
Proof.
  intros Hinv. pose proof Hinv as [Hres _ _ _ _ _]. simpl in Hres.
  pose proof (get_context_attached user_input default_n_results the_global
                w s Hres) as Hctx.
  set (context := context_of _ s) in Hctx.
  set (response :=
         chat_completions_create "gpt-4o-mini"
           [ {| role := "system"; content := system_prompt' |};
             {| role := "user";
                content :=
                  render "prompts/datastore_user_prompt.jinja"
                    {[ "input_message" := user_input;
                       "relevant_chat_history" := context ]} |} ]).
  destruct (add_live user_input response _ s Hinv)
    as (st' & s' & Hadd & Hinv' & Hes & Hself).
  exists context, (update the_global (self st') (db st') w), s'.
  cbv zeta. fold response. split; [exact Hctx|]. split.
  { rewrite (chat_with_db_step _ _ _ _ _ Hctx). cbv zeta.
    unfold load_template. fold response. by rewrite Hadd. }
  split_and!.
  - destruct st'. exact Hinv'.
  - exact Hes.
  - simpl. by rewrite Hself.
  - done.
Qed.

(** X16: the [chat_db] argument of [chat_with_db] only says where the turn
    is stored. With another live store passed, of another collection name,
    the context is still the one of the default store, the turn goes into
    the store passed, and the default store and its collection are as
    before. *)
Theorem chat_with_db_other_store (user_input system_prompt' : string) w
    (s_global s_other : Stored) :
  store_inv (view the_global w) s_global →
  store_inv (view the_other w) s_other →
  coll_name (chat_db (global_chat_db w))
  ≠ coll_name (chat_db (other_chat_db w)) →
  ∃ context w' s',
    let response :=
      chat_completions_create "gpt-4o-mini"
        [ {| role := "system"; content := system_prompt' |};
          {| role := "user";
             content :=
               render "prompts/datastore_user_prompt.jinja"
                 {[ "input_message" := user_input;
                    "relevant_chat_history" := context ]} |} ] in
    get_context user_input default_n_results the_global w = (inr context, w)
    ∧ chat_with_db user_input the_other system_prompt' w
      = (inr (context, response), w')
    ∧ global_chat_db w' = global_chat_db w
    ∧ store_inv (view the_global w') s_global
    ∧ store_inv (view the_other w') s'
    ∧ entry_document <$> stored_entries s' =
        (entry_document <$> stored_entries s_other)
        ++ ["User: " +:+ user_input +:+ LF +:+ "AI: " +:+ response].
Proof.
  intros Hglobal Hother Hne.
  pose proof Hglobal as [Hres _ _ _ _ _]. simpl in Hres.
  pose proof (get_context_attached user_input default_n_results the_global
                w s_global Hres) as Hctx.
  set (context := context_of _ s_global) in Hctx.
  set (response :=
         chat_completions_create "gpt-4o-mini"
           [ {| role := "system"; content := system_prompt' |};
             {| role := "user";
                content :=
                  render "prompts/datastore_user_prompt.jinja"
                    {[ "input_message" := user_input;
                       "relevant_chat_history" := context ]} |} ]).
  destruct (add_live user_input response _ s_other Hother)
    as (st' & s' & Hadd & Hinv' & Hes & Hself).
  exists context, (update the_other (self st') (db st') w), s'.
  cbv zeta. fold response. split; [exact Hctx|]. split.
  { rewrite (chat_with_db_step _ _ _ _ _ Hctx). cbv zeta.
    unfold load_template. fold response. by rewrite Hadd. }
  split_and!.
  - done.
  - apply (store_inv_frame _ (disk w)); [exact Hglobal|].
    pose proof (add_leaves_other_collections
                  (coll_name (chat_db (global_chat_db w)))
                  user_input response (view the_other w) Hne) as Hframe.
    by rewrite Hadd in Hframe.
  - destruct st'. exact Hinv'.
  - by rewrite Hes, fmap_app.
Qed.

(** X17: when the default store is destroyed, [chat_with_db] raises the
    NotFound of [get_context] and nothing changes: no turn is stored,
    whichever store is passed as [chat_db], a live one included. *)
Theorem chat_with_db_default_destroyed (user_input system_prompt' : string)
    r w :
  destroyed (view the_global w) →
  chat_with_db user_input r system_prompt' w = (inl (Raised NotFound), w).
Proof.
  intros Hgone. unfold chat_with_db, mbind, S_bind.
  by rewrite get_context_detached by by apply resolve_missing.
Qed.

(** *** A dialogue: [chat_with_db] call after call *)

Lemma chat_step_live user_input w s :
  store_inv (view the_global w) s →
  ∃ (c : string * string) w' s',
    chat_with_db user_input the_global system_prompt w = (inr c, w')
    ∧ c.1 = context_of (embed OPENAI_API_KEY (model_name (global_chat_db w))
                              user_input) s
    ∧ store_inv (view the_global w') s'
    ∧ entry_metadata <$> stored_entries s' =
        (entry_metadata <$> stored_entries s)
        ++ [conversation_metadata user_input c.2]
    ∧ model_name (global_chat_db w') = model_name (global_chat_db w).
Proof.
  intros Hinv. pose proof Hinv as [Hres _ _ Hef _ _]. simpl in Hres, Hef.
  pose proof (get_context_attached user_input default_n_results the_global
                w s Hres) as Hctx.
  rewrite (chat_with_db_step _ _ system_prompt _ _ Hctx). cbv zeta.
  set (response := chat_completions_create _ _).
  destruct (add_live user_input response _ s Hinv)
    as (st' & s' & Hadd & Hinv' & Hes & Hself).
  rewrite Hadd. eexists _, _, s'. split; [done|]. simpl. split_and!.
  - by rewrite Hef.
  - destruct st'. exact Hinv'.
  - by rewrite Hes, fmap_app.
  - by rewrite Hself.
Qed.

Lemma chat_all_live inputs w s :
  store_inv (view the_global w) s →
  ∃ rs w' s',
    chat_all inputs w = (inr rs, w')
    ∧ length rs = length inputs
    ∧ store_inv (view the_global w') s'
    ∧ entry_metadata <$> stored_entries s' =
        (entry_metadata <$> stored_entries s)
        ++ zip_with (λ i (c : string * string), conversation_metadata i c.2)
                    inputs rs
    ∧ fst <$> head rs =
        (λ i, context_of (embed OPENAI_API_KEY
                                (model_name (global_chat_db w)) i) s)
        <$> head inputs.
Proof.
  revert w s. induction inputs as [|i inputs IH]; intros w s Hinv.
  - exists [], w, s. simpl. by rewrite app_nil_r.
  - destruct (chat_step_live i w s Hinv)
      as (c & w1 & s1 & Hstep & Hctx & Hinv1 & Hmeta1 & _).
    destruct (IH w1 s1 Hinv1) as (rs & w' & s' & Hall & Hlen & Hinv' & Hmeta & _).
    exists (c :: rs), w', s'. split_and!.
    + simpl. unfold mbind, S_bind. by rewrite Hstep, Hall.
    + simpl. by rewrite Hlen.
    + done.
    + rewrite Hmeta, Hmeta1. simpl. by rewrite <- (assoc_L (++)).
    + simpl. by rewrite Hctx.
Qed.

Lemma dialogue_metadata (inputs : list string) (rs : list (string * string)) :
  (λ m : gmap string string, (m !! "user_message", m !! "ai_message"))
    <$> zip_with (λ i (c : string * string), conversation_metadata i c.2)
                 inputs rs
  = zip_with (λ i (c : string * string), (Some i, Some c.2)) inputs rs.
Proof.
  revert rs. induction inputs as [|i inputs IH]; intros [|c rs]; try done.
  destruct (conversation_metadata_lookup i c.2) as [Hu Ha].
  csimpl. by rewrite IH, Hu, Ha.
Qed.

(** X18: a dialogue on a live default store without turns. Any sequence of
    [chat_with_db] calls with the default arguments returns normally, one
    (context, response) pair per input; afterwards [get_all_entries]
    returns one turn per input, under the pairwise distinct ids "0", "1",
    ..., whose metadata pair every input with exactly the response returned
    for it, in the order of the backend's listing; and the context of the
    first call is the fixed sentence "No relevant chat history found.". *)
Theorem chat_all_stores_every_turn (inputs : list string) w s :
  store_inv (view the_global w) s →
  stored_entries s = [] →
  ∃ rs w' all,
    chat_all inputs w = (inr rs, w')
    ∧ length rs = length inputs
    ∧ get_all_entries (view the_global w') = (inr all, view the_global w')
    ∧ get_ids all ≡ₚ (λ i : nat, str (Z.of_nat i)) <$> seq 0 (length inputs)
    ∧ NoDup (get_ids all)
    ∧ (λ m : gmap string string, (m !! "user_message", m !! "ai_message"))
        <$> get_metadatas all
      ≡ₚ zip_with (λ i (c : string * string), (Some i, Some c.2)) inputs rs
    ∧ fst <$> head rs
      = (λ _, "No relevant chat history found.") <$> head inputs.
Proof.
  intros Hinv Hempty.
  destruct (chat_all_live inputs w s Hinv)
    as (rs & w' & s' & Hall & Hlen & Hinv' & Hmeta & Hhead).
  rewrite Hempty in Hmeta. simpl in Hmeta.
  pose proof Hinv' as [Hres' _ _ _ Hpos' Hids'].
  pose proof (listing_Permutation (stored_entries s')) as Hperm.
  assert (Hcount : Z.to_nat (id_counter (self (view the_global w')))
                   = length inputs).
  { rewrite <- issued_length, <- Hids', length_fmap.
    rewrite <- (length_fmap entry_metadata), Hmeta, length_zip_with. lia. }
  assert (Hidsperm : entry_id <$> listing (stored_entries s')
                     ≡ₚ (λ i : nat, str (Z.of_nat i))
                        <$> seq 0 (length inputs)).
  { rewrite Hperm, Hids'. unfold issued. by rewrite Hcount. }
  eexists rs, w', _. split_and!; [done|done|by apply get_all_attached|..].
  - done.
  - simpl. rewrite Hidsperm. apply NoDup_fmap_2; [|apply NoDup_seq].
    intros i j Hij. apply str_inj in Hij. lia.
  - simpl. rewrite Hperm, Hmeta. by rewrite dialogue_metadata.
  - rewrite Hhead. destruct inputs as [|i inputs]; [done|]. simpl.
    unfold context_of. by rewrite Hempty.
Qed.

End SessionProperties.

(** * The further properties on the stub scenarios *)

(** X1 on the store holding the three turns. *)
Lemma counter_counts_entries_witness :
  store_inv three_turn_store (stored_of three_turn_store)
  ∧ ∃ r, get_all_entries three_turn_store = (inr r, three_turn_store)
         ∧ get_ids r ≡ₚ ["0"; "1"; "2"]
         ∧ Z.of_nat (length (get_ids r)) = 3.
Proof.
  assert (Hlive : store_inv three_turn_store (stored_of three_turn_store))
    by live_by_evaluation.
  split; [exact Hlive|].
  destruct (counter_counts_entries three_turn_store
              (stored_of three_turn_store) Hlive)
    as (r & Hget & Hids & _ & Hlen & _).
  exists r. split; [exact Hget|]. split; [exact Hids|exact Hlen].
Defined.

(** X2 on the store holding one turn, with the two other turns. *)
Lemma adds_append_only_witness :
  store_inv one_turn_store (stored_of one_turn_store)
  ∧ ∃ st' r r',
      get_all_entries one_turn_store = (inr r, one_turn_store)
      ∧ (add_all (drop 1 three_turns) ;; get_all_entries) one_turn_store
        = (inr r', st')
      ∧ records r' ≡ₚ
          records r
          ++ [("1", ("User: Need a restaurant" +:+ LF +:+ "AI: What cuisine?",
                     {[ "user_message" := "Need a restaurant";
                        "ai_message" := "What cuisine?" ]}));
              ("2", ("User: Italian food" +:+ LF +:+ "AI: What budget?",
                     {[ "user_message" := "Italian food";
                        "ai_message" := "What budget?" ]}))]
      ∧ length (get_ids r') = (length (get_ids r) + 2)%nat.
Proof.
  assert (Hlive : store_inv one_turn_store (stored_of one_turn_store))
    by live_by_evaluation.
  split; [exact Hlive|].
  destruct (adds_append_only (drop 1 three_turns) one_turn_store
              (stored_of one_turn_store) Hlive)
    as (st' & r & r' & Hget & Hrun & Hrecords & Hlen & _).
  exists st', r, r'. split; [exact Hget|]. split; [exact Hrun|].
  split; [exact Hrecords|exact Hlen].
Defined.

(** X3 on the three turns of the scenario. *)
Lemma metadata_reads_back_messages_witness :
  store_inv fresh_store (stored_of fresh_store)
  ∧ stored_entries (stored_of fresh_store) = []
  ∧ ∃ st' r,
      (add_all three_turns ;; get_all_entries) fresh_store = (inr r, st')
      ∧ (λ m : gmap string string, (m !! "user_message", m !! "ai_message"))
          <$> get_metadatas r
        ≡ₚ [(Some "Hi, I'm Alice", Some "Hello Alice");
            (Some "Need a restaurant", Some "What cuisine?");
            (Some "Italian food", Some "What budget?")].
Proof.
  assert (Hlive : store_inv fresh_store (stored_of fresh_store))
    by live_by_evaluation.
  assert (Hempty : stored_entries (stored_of fresh_store) = [])
    by (vm_compute; reflexivity).
  split; [exact Hlive|]. split; [exact Hempty|].
  destruct (metadata_reads_back_messages three_turns fresh_store
              (stored_of fresh_store) Hlive Hempty)
    as (st' & r & Hrun & Hmeta & _).
  exists st', r. split; [exact Hrun|exact Hmeta].
Defined.

(** X5 on the second store of the directory: the collection "chat_db" is
    not its own. *)
Lemma methods_leave_other_collections_witness :
  "chat_db" ≠ coll_name (chat_db (self second_store))
  ∧ collections (db (clear_db true second_store).2) !! "chat_db"
    = collections (db second_store) !! "chat_db".
Proof.
  assert (Hne : "chat_db" ≠ coll_name (chat_db (self second_store)))
    by (vm_compute; discriminate).
  split; [exact Hne|].
  exact (proj1 (proj2 (methods_leave_other_collections "chat_db"
                         second_store Hne)) true).
Defined.

(** X6 on the scenario: one result is the first of three. *)
Lemma query_db_fewer_is_prefix_witness :
  1 ≤ 1 ≤ 3
  ∧ query_db "Food" 3 three_turn_store = (inr food_results, three_turn_store)
  ∧ query_db "Food" 1 three_turn_store
    = (inr {| ids := take 1 <$> ids food_results;
              distances := take 1 <$> distances food_results;
              metadatas := take 1 <$> metadatas food_results;
              embeddings := None;
              documents := take 1 <$> documents food_results |},
       three_turn_store).
Proof.
  assert (Hnm : 1 ≤ 1 ≤ 3) by (split; vm_compute; discriminate).
  assert (Hm : query_db "Food" 3 three_turn_store
               = (inr food_results, three_turn_store))
    by (vm_compute; reflexivity).
  split; [exact Hnm|]. split; [exact Hm|].
  exact (query_db_fewer_is_prefix "Food" 1 3 three_turn_store
           three_turn_store food_results Hnm Hm).
Defined.

(** X7 on the scenario: five results asked of three turns. *)
Lemma query_db_returns_every_turn_witness :
  store_inv three_turn_store (stored_of three_turn_store)
  ∧ 1 ≤ 5
  ∧ Z.of_nat (length (stored_entries (stored_of three_turn_store))) ≤ 5
  ∧ ∃ r all hits,
      query_db "Food" 5 three_turn_store = (inr r, three_turn_store)
      ∧ get_all_entries three_turn_store = (inr all, three_turn_store)
      ∧ ids r = [hits]
      ∧ hits ≡ₚ get_ids all.
Proof.
  assert (Hlive : store_inv three_turn_store (stored_of three_turn_store))
    by live_by_evaluation.
  assert (Hn : 1 ≤ 5) by (vm_compute; discriminate).
  assert (Hk : Z.of_nat (length (stored_entries (stored_of three_turn_store)))
               ≤ 5) by (vm_compute; discriminate).
  split; [exact Hlive|]. split; [exact Hn|]. split; [exact Hk|].
  destruct (query_db_returns_every_turn "Food" 5 three_turn_store
              (stored_of three_turn_store) Hlive Hn Hk)
    as (r & all & hits & Hquery & Hget & Hids & Hperm & _).
  exists r, all, hits. split; [exact Hquery|]. split; [exact Hget|].
  split; [exact Hids|exact Hperm].
Defined.

(** X8 on the store holding the three turns. *)
Lemma clear_db_on_reused_name_witness :
  store_inv three_turn_store (stored_of three_turn_store)
  ∧ (coll_id (chat_db (self three_turn_store))
     < next_id (db three_turn_store))%N
  ∧ ∃ new d,
      new_ChatDB "chat_db" default_model_name
                 (db (clear_db false three_turn_store).2) = inr (new, d)
      ∧ (clear_db false {| self := self three_turn_store; db := d |}).1
        = inr tt.
Proof.
  assert (Hlive : store_inv three_turn_store (stored_of three_turn_store))
    by live_by_evaluation.
  assert (Hlt : (coll_id (chat_db (self three_turn_store))
                 < next_id (db three_turn_store))%N)
    by (vm_compute; reflexivity).
  split; [exact Hlive|]. split; [exact Hlt|].
  destruct (clear_db_on_reused_name default_model_name three_turn_store
              (stored_of three_turn_store) Hlive Hlt)
    as (new & d & Hnew & _ & _ & _ & Hclear & _).
  exists new, d. split; [exact Hnew|exact Hclear].
Defined.

(** X11 on two documents and two scores. *)
Lemma combined_context_app_witness :
  length ["a"] = length [1 # 2]
  ∧ combined_context (["a"] ++ ["b"]) ([1 # 2] ++ [1 # 3])
    = combined_context ["a"] [1 # 2] +:+ combined_context ["b"] [1 # 3].
Proof.
  split; [reflexivity|].
  apply (combined_context_app ["a"] ["b"] [1 # 2] [1 # 3]). reflexivity.
Defined.

(** X12 on the session holding the three turns, with zero passed as
    [n_results]. *)
Lemma get_context_live_witness :
  store_inv (view the_global turns_session)
            (stored_of (view the_global turns_session))
  ∧ (∃ context,
       get_context "Food" 0 the_global turns_session
       = (inr context, turns_session))
  ∧ (get_context "Food" 0 the_global turns_session).1
    ≠ inr "No relevant chat history found.".
Proof.
  assert (Hlive : store_inv (view the_global turns_session)
                            (stored_of (view the_global turns_session)))
    by live_by_evaluation.
  split; [exact Hlive|].
  destruct (get_context_live "Food" 0 the_global
              turns_session _ Hlive)
    as (hits & rest & _ & _ & _ & _ & Hctx).
  split; [eexists; exact Hctx|].
  vm_compute. discriminate.
Defined.

(** X13 on the session whose default store is destroyed. *)
Lemma get_context_destroyed_witness :
  destroyed (view the_global destroyed_session)
  ∧ get_context "Food" 2 the_global destroyed_session
    = (inl (Raised NotFound), destroyed_session).
Proof.
  assert (Hgone : destroyed (view the_global destroyed_session))
    by (vm_compute; reflexivity).
  split; [exact Hgone|].
  exact (get_context_destroyed "Food" 2 the_global
           destroyed_session Hgone).
Defined.

(** X15 on the session just constructed. *)
Lemma chat_with_db_default_store_witness :
  store_inv (view the_global fresh_session)
            (stored_of (view the_global fresh_session))
  ∧ ∃ context response w',
      get_context "Hello, my name is Alice" default_n_results the_global
                  fresh_session = (inr context, fresh_session)
      ∧ chat_with_db (Svc := stub_services) "Hello, my name is Alice"
                     the_global (@system_prompt stub_services) fresh_session
        = (inr (context, response), w')
      ∧ id_counter (global_chat_db w') = 1.
Proof.
  assert (Hlive : store_inv (view the_global fresh_session)
                            (stored_of (view the_global fresh_session)))
    by live_by_evaluation.
  split; [exact Hlive|].
  destruct (chat_with_db_default_store (Svc := stub_services)
              "Hello, my name is Alice" (@system_prompt stub_services)
              fresh_session _ Hlive)
    as (context & w' & s' & Hctx & Hchat & _ & _ & Hn & _).
  eexists context, _, w'. split; [exact Hctx|]. split; [exact Hchat|exact Hn].
Defined.

(** X16 on the session just constructed: the turn goes into "notes_db". *)
Lemma chat_with_db_other_store_witness :
  store_inv (view the_global fresh_session)
            (stored_of (view the_global fresh_session))
  ∧ store_inv (view the_other fresh_session)
              (stored_of (view the_other fresh_session))
  ∧ coll_name (chat_db (global_chat_db fresh_session))
    ≠ coll_name (chat_db (other_chat_db fresh_session))
  ∧ ∃ result w',
      chat_with_db (Svc := stub_services) "Hello, my name is Alice"
                   the_other (@system_prompt stub_services)
                   fresh_session
      = (inr result, w')
      ∧ global_chat_db w' = global_chat_db fresh_session.
Proof.
  assert (Hglobal : store_inv (view the_global fresh_session)
                              (stored_of (view the_global fresh_session)))
    by live_by_evaluation.
  assert (Hother : store_inv (view the_other fresh_session)
                             (stored_of (view the_other fresh_session)))
    by live_by_evaluation.
  assert (Hne : coll_name (chat_db (global_chat_db fresh_session))
                ≠ coll_name (chat_db (other_chat_db fresh_session)))
    by (vm_compute; discriminate).
  split; [exact Hglobal|]. split; [exact Hother|]. split; [exact Hne|].
  destruct (chat_with_db_other_store (Svc := stub_services)
              "Hello, my name is Alice" (@system_prompt stub_services)
              fresh_session _ _
              Hglobal Hother Hne)
    as (context & w' & s' & _ & Hchat & Hsame & _).
  eexists _, w'. split; [exact Hchat|exact Hsame].
Defined.

(** X17 on the session whose default store is destroyed, with the live
    second store passed. *)
Lemma chat_with_db_default_destroyed_witness :
  destroyed (view the_global destroyed_session)
  ∧ live (view the_other destroyed_session)
  ∧ chat_with_db (Svc := stub_services) "Hello" the_other
                 (@system_prompt stub_services) destroyed_session
    = (inl (Raised NotFound), destroyed_session).
Proof.
  assert (Hgone : destroyed (view the_global destroyed_session))
    by (vm_compute; reflexivity).
  split; [exact Hgone|]. split.
  - exists (stored_of (view the_other destroyed_session)).
    live_by_evaluation.
  - exact (chat_with_db_default_destroyed "Hello"
             (@system_prompt stub_services) the_other
             destroyed_session Hgone).
Defined.

(** X18 on three inputs in the session just constructed. *)
Lemma chat_all_stores_every_turn_witness :
  store_inv (view the_global fresh_session)
            (stored_of (view the_global fresh_session))
  ∧ stored_entries (stored_of (view the_global fresh_session)) = []
  ∧ ∃ rs w' all,
      chat_all (Svc := stub_services)
               ["Hello, my name is Alice"; "What is my name?"; "Food?"]
               fresh_session = (inr rs, w')
      ∧ get_all_entries (view the_global w') = (inr all, view the_global w')
      ∧ get_ids all ≡ₚ ["0"; "1"; "2"]
      ∧ length rs = 3%nat.
Proof.
  assert (Hlive : store_inv (view the_global fresh_session)
                            (stored_of (view the_global fresh_session)))
    by live_by_evaluation.
  assert (Hempty : stored_entries (stored_of (view the_global fresh_session))
                   = []) by (vm_compute; reflexivity).
  split; [exact Hlive|]. split; [exact Hempty|].
  destruct (chat_all_stores_every_turn (Svc := stub_services)
              ["Hello, my name is Alice"; "What is my name?"; "Food?"]
              fresh_session _ Hlive Hempty)
    as (rs & w' & all & Hrun & Hlen & Hget & Hids & _).
  exists rs, w', all. split; [exact Hrun|]. split; [exact Hget|].
  split; [exact Hids|exact Hlen].
Defined.
